(** * GraphRAGEval: thread reconstruction and vector index maintenance

    A shallow embedding of the two maintenance scripts
    [create_thread_relationships.py] and [create_indexes.py].

    Both scripts are thin Python drivers around Cypher statements, so the
    embedding has three layers:

    - [Cypher]: the fragment of Cypher expression semantics the statements
      use (ternary logic with [null], [STARTS WITH], [substring], [+]);
    - [Store]: the property graph and the index catalogue, with the two
      reconstruction statements and the index declaration evaluated on them;
    - [Script]: the Python control flow around the store calls
      ([try] / [except Exception] / [finally], [print], [return]).  *)

From Stdlib Require Import List String Ascii Bool Arith Lia DecimalString.
Import ListNotations.
Open Scope string_scope.

Set Implicit Arguments.

(* ================================================================== *)
(** ** Cypher expressions *)

Module Cypher.

(** A property that is read by the statements holds a string or is
    absent; reading an absent property gives [null]. *)
Definition value := option string.

(** Cypher predicates are three-valued: [None] is [null]. *)
Definition tern := option bool.

Definition is_not_null (v : value) : tern :=
  match v with
  | Some _ => Some true
  | None => Some false
  end.

(** [a <> b]: [null] as soon as one side is [null]. *)
Definition neq (a b : value) : tern :=
  match a, b with
  | Some x, Some y => Some (negb (String.eqb x y))
  | _, _ => None
  end.

(** [AND] of the ternary logic: [false] absorbs [null]. *)
Definition and3 (a b : tern) : tern :=
  match a, b with
  | Some false, _ => Some false
  | _, Some false => Some false
  | Some true, Some true => Some true
  | _, _ => None
  end.

(** [WHERE] keeps a row only when its predicate is [true]. *)
Definition holds (t : tern) : bool :=
  match t with
  | Some true => true
  | _ => false
  end.

(** [s STARTS WITH p] on strings. *)
Fixpoint starts (p s : string) : bool :=
  match p with
  | EmptyString => true
  | String a p' =>
      match s with
      | EmptyString => false
      | String b s' => Ascii.eqb a b && starts p' s'
      end
  end.

Definition starts_with (s p : value) : tern :=
  match s, p with
  | Some s', Some p' => Some (starts p' s')
  | _, _ => None
  end.

(** [substring(s, n)] on strings: what is left after the first [n]
    characters. *)
Fixpoint drop (n : nat) (s : string) : string :=
  match n with
  | O => s
  | S n' =>
      match s with
      | EmptyString => EmptyString
      | String _ s' => drop n' s'
      end
  end.

Definition substring (s : value) (n : nat) : value :=
  match s with
  | Some s' => Some (drop n s')
  | None => None
  end.

(** [a + b] on strings. *)
Definition concat (a b : value) : value :=
  match a, b with
  | Some x, Some y => Some (x ++ y)
  | _, _ => None
  end.

(** [CASE WHEN c1 THEN e1 WHEN c2 THEN e2 ... ELSE d END]: the first
    branch whose condition is [true]. *)
Fixpoint case_when (branches : list (tern * value)) (default : value) : value :=
  match branches with
  | [] => default
  | (c, e) :: rest => if holds c then e else case_when rest default
  end.

End Cypher.

(* ================================================================== *)
(** ** The store: property graph and index catalogue *)

Module Store.
Import Cypher.

(** A node carries its labels and the three properties the statements
    read.  The identity of a node is its position in [nodes]; it is not
    the [id] property, which the store does not constrain. *)
Record node : Type := mkNode {
  labels : list string;
  id : value;
  parent_id : value;
  link_id : value
}.

Inductive rel_type : Type := REPLIES_TO | BELONGS_TO_THREAD.

(** A relationship: directed, typed, between two node identities. *)
Record rel : Type := mkRel {
  rtype : rel_type;
  src : nat;
  dst : nat
}.

(** A vector index of the catalogue. *)
Record index : Type := mkIndex {
  ix_name : string;
  ix_label : string;
  ix_property : string;
  ix_dimensions : nat;
  ix_similarity : string
}.

Record db : Type := mkDb {
  nodes : list node;
  rels : list rel;
  indexes : list index
}.

Definition rel_type_eqb (a b : rel_type) : bool :=
  match a, b with
  | REPLIES_TO, REPLIES_TO => true
  | BELONGS_TO_THREAD, BELONGS_TO_THREAD => true
  | _, _ => false
  end.

Definition rel_eqb (a b : rel) : bool :=
  rel_type_eqb (rtype a) (rtype b)
  && Nat.eqb (src a) (src b) && Nat.eqb (dst a) (dst b).

Definition has_label (l : string) (n : node) : bool :=
  existsb (String.eqb l) (labels n).

(** [MATCH (x:l)]: every node with label [l], with its identity. *)
Definition match_label (l : string) (d : db) : list (nat * node) :=
  filter (fun x => has_label l (snd x))
         (combine (seq 0 (List.length (nodes d))) (nodes d)).

(** *** The two reconstruction statements

    Lines 28-31 and 53-56: the first [WHERE], on the property [ref]
    ([parent_id] in the first statement, [link_id] in the second). *)
Definition source_filter (ref : node -> value) (n : node) : bool :=
  holds (and3 (and3 (is_not_null (ref n)) (neq (ref n) (id n)))
              (neq (ref n) (Some ""))).

(** Lines 33-37: [processed_parent_id]. *)
Definition processed_parent_id (parent : value) : value :=
  case_when
    [ (starts_with parent (Some "t1_"), substring parent 3);
      (starts_with parent (Some "t3_"), substring parent 3) ]
    parent.

(** Lines 58-61: [processed_thread_id]. *)
Definition processed_thread_id (link : value) : value :=
  case_when
    [ (starts_with link (Some "t3_"), substring link 3) ]
    link.

(** Lines 40-41 and 64-65: the second [WHERE]. *)
Definition target_filter (processed : value) (source target : node) : bool :=
  holds (and3 (starts_with (id target) (concat processed (Some "_")))
              (neq (id target) (id source))).

(** Lines 39-41 and 63-65: the second [MATCH], for one source row. *)
Definition candidates (d : db) (source : node) (processed : value)
  : list (nat * node) :=
  filter (fun t => target_filter processed source (snd t))
         (match_label "RedditContent" d).

(** The rows that reach [MERGE]: one per (source, candidate) pair. *)
Definition rows (ref : node -> value) (processed : value -> value) (d : db)
  : list (nat * nat) :=
  flat_map
    (fun s => map (fun t => (fst s, fst t))
                  (candidates d (snd s) (processed (ref (snd s)))))
    (filter (fun s => source_filter ref (snd s))
            (match_label "RedditContent" d)).

(** [MERGE (a)-[:k]->(b)] on bound nodes: create the relationship only
    when none of that type already links the pair. *)
Definition merge (rs : list rel) (r : rel) : list rel :=
  if existsb (rel_eqb r) rs then rs else rs ++ [r].

Definition merge_rows (k : rel_type) (rws : list (nat * nat)) (rs : list rel)
  : list rel :=
  fold_left (fun acc p => merge acc (mkRel k (fst p) (snd p))) rws rs.

(** The relationships [MERGE] matches for [r]. *)
Definition matching (rs : list rel) (r : rel) : list rel :=
  filter (rel_eqb r) rs.

(** The rows [MERGE] passes on for one incoming row: one per relationship
    it matches, or one for the relationship it creates. *)
Definition yielded (rs : list rel) (r : rel) : nat :=
  match matching rs r with
  | [] => 1
  | ms => List.length ms
  end.

(** The rows that reach [RETURN count(...)]: each incoming row is merged
    against the store as the rows before it left it. *)
Fixpoint yield_rows (k : rel_type) (rws : list (nat * nat)) (rs : list rel)
  : nat :=
  match rws with
  | [] => 0
  | p :: rest =>
      yielded rs (mkRel k (fst p) (snd p))
      + yield_rows k rest (merge rs (mkRel k (fst p) (snd p)))
  end.

(** The outcome of a store call. *)
Inductive result (A : Type) : Type :=
| Ok (a : A)
| Raise (msg : string).
Arguments Ok {A} a.
Arguments Raise {A} msg.

(** The first pair of the statement the store refuses to write, if any. *)
Fixpoint first_rejected (reject : rel -> option string) (k : rel_type)
         (rws : list (nat * nat)) : option string :=
  match rws with
  | [] => None
  | p :: rest =>
      match reject (mkRel k (fst p) (snd p)) with
      | Some msg => Some msg
      | None => first_rejected reject k rest
      end
  end.

(** One reconstruction statement, run as the auto-commit transaction
    [session.run] opens: a failure on any pair rolls the statement back
    and raises; otherwise every row is merged and [count(...)] returns
    the number of rows [MERGE] passed on, in a single record. *)
Definition run_statement (reject : rel -> option string)
           (ref : node -> value) (processed : value -> value)
           (k : rel_type) (d : db) : result (db * nat) :=
  let rws := rows ref processed d in
  match first_rejected reject k rws with
  | Some msg => Raise msg
  | None =>
      Ok (mkDb (nodes d) (merge_rows k rws (rels d)) (indexes d),
          yield_rows k rws (rels d))
  end.

(** Lines 27-44. *)
Definition replies_statement (reject : rel -> option string) :=
  run_statement reject parent_id processed_parent_id REPLIES_TO.

(** Lines 52-68. *)
Definition threads_statement (reject : rel -> option string) :=
  run_statement reject link_id processed_thread_id BELONGS_TO_THREAD.

(** *** Index declaration

    [CREATE VECTOR INDEX name IF NOT EXISTS FOR (x:label) ON x.property
    OPTIONS {...}]: nothing happens when the catalogue already has an
    index of that name, or one over the same label and property; the
    options of the existing index are not compared. *)
Definition same_name (a b : index) : bool :=
  String.eqb (ix_name a) (ix_name b).

Definition same_schema (a b : index) : bool :=
  String.eqb (ix_label a) (ix_label b)
  && String.eqb (ix_property a) (ix_property b).

Definition create_vector_index_if_not_exists (ix : index) (d : db) : db :=
  if existsb (fun e => same_name e ix || same_schema e ix) (indexes d)
  then d
  else mkDb (nodes d) (rels d) (indexes d ++ [ix]).

(** create_indexes.py, lines 26-34. *)
Definition reddit_content_embeddings : index :=
  mkIndex "reddit_content_embeddings" "RedditContent" "content_embedding"
          1024 "cosine".

(** create_indexes.py, lines 40-48. *)
Definition topic_embeddings : index :=
  mkIndex "topic_embeddings" "Topic" "embedding" 1024 "cosine".

End Store.

(* ================================================================== *)
(** ** The scripts: Python control flow around the store calls *)

Module Script.
Import Store.

(** What the driver and the store do wrong during one execution.  Every
    call the scripts make into the driver can raise; [Some msg] is the
    text of the exception. *)
Record faults : Type := mkFaults {
  (** [GraphDatabase.driver(uri, auth=...)] raises. *)
  driver_fault : option string;
  (** [driver.session()] raises. *)
  session_fault : option string;
  (** the [n]-th [session.run] of the session raises before its
      statement takes effect. *)
  run_fault : nat -> option string;
  (** the store refuses to write this relationship. *)
  reject : rel -> option string;
  (** [driver.close()] raises. *)
  close_fault : option string
}.

Definition no_faults : faults :=
  mkFaults None None (fun _ => None) (fun _ => None) None.

(** The state an execution acts on: the store and the lines printed. *)
Record world : Type := mkWorld {
  store : db;
  stdout : list string
}.

(** Statements that may raise, over the world. *)
Definition M (A : Type) : Type := world -> result A * world.

Definition ret {A : Type} (a : A) : M A := fun w => (Ok a, w).

Definition bind {A B : Type} (m : M A) (k : A -> M B) : M B :=
  fun w =>
    match m w with
    | (Ok a, w') => k a w'
    | (Raise msg, w') => (Raise msg, w')
    end.

Notation "x <- m ;; k" := (bind m (fun x => k))
  (at level 61, m at next level, right associativity).
Notation "m ;; k" := (bind m (fun _ => k))
  (at level 61, right associativity).

Definition print_line (s : string) (w : world) : world :=
  mkWorld (store w) (stdout w ++ [s]).

Definition print (s : string) : M unit :=
  fun w => (Ok tt, print_line s w).

(** [driver.session()]. *)
Definition open_session (f : faults) : M unit :=
  fun w =>
    match session_fault f with
    | Some msg => (Raise msg, w)
    | None => (Ok tt, w)
    end.

(** The [n]-th [session.run(...)] of the session, consumed. *)
Definition session_run {A : Type} (f : faults) (n : nat)
           (stmt : db -> result (db * A)) : M A :=
  fun w =>
    match run_fault f n with
    | Some msg => (Raise msg, w)
    | None =>
        match stmt (store w) with
        | Ok (d, a) => (Ok a, mkWorld d (stdout w))
        | Raise msg => (Raise msg, w)
        end
    end.

(** [str(n)] for a count. *)
Definition str (n : nat) : string :=
  NilEmpty.string_of_uint (Nat.to_uint n).

(** How a call of a script ends for its caller. *)
Inductive outcome : Type :=
| Returns (b : bool)
| Propagates (msg : string).

(** The frame both scripts share:
<<
    driver = GraphDatabase.driver(...)
    try:
        body
    except Exception as e:
        print(f"{banner}{e}")
        return False
    finally:
        driver.close()
    return True
>>
    The driver is built before [try]; [finally] runs on both paths, and
    an exception raised there replaces the pending [return]. *)
Definition with_driver (f : faults) (banner : string) (body : M unit)
  : world -> outcome * world :=
  fun w =>
    match driver_fault f with
    | Some msg => (Propagates msg, w)
    | None =>
        let (r, w1) := body w in
        let (b, w2) :=
          match r with
          | Ok _ => (true, w1)
          | Raise e => (false, print_line (banner ++ e) w1)
          end in
        match close_fault f with
        | Some msg => (Propagates msg, w2)
        | None => (Returns b, w2)
        end
    end.

(** create_thread_relationships.py, lines 23-73.  [count(...)] aggregates
    to exactly one record, so [.single()] returns it and the count the
    script prints is the one of the statement. *)
Definition thread_relationships_body (f : faults) : M unit :=
  open_session f ;;
  print "Creating REPLIES_TO relationships..." ;;
  replies_count <- session_run f 0 (replies_statement (reject f)) ;;
  print ("Created " ++ str replies_count ++ " REPLIES_TO relationships") ;;
  print "Creating BELONGS_TO_THREAD relationships..." ;;
  thread_count <- session_run f 1 (threads_statement (reject f)) ;;
  print ("Created " ++ str thread_count ++ " BELONGS_TO_THREAD relationships") ;;
  print "✓ Thread relationships creation completed!".

(** create_thread_relationships.py, lines 13-82. *)
Definition create_thread_relationships (f : faults)
  : world -> outcome * world :=
  with_driver f "Error creating thread relationships: "
              (thread_relationships_body f).

(** [session.run] of one index declaration. *)
Definition declare_index (ix : index) (d : db) : result (db * unit) :=
  Ok (create_vector_index_if_not_exists ix d, tt).

(** create_indexes.py, lines 22-51. *)
Definition vector_indexes_body (f : faults) : M unit :=
  open_session f ;;
  print "Creating Reddit content embeddings vector index..." ;;
  session_run f 0 (declare_index reddit_content_embeddings) ;;
  print "Creating topic embeddings vector index..." ;;
  session_run f 1 (declare_index topic_embeddings) ;;
  print "✓ All vector indexes created successfully!".

(** create_indexes.py, lines 12-60. *)
Definition create_vector_indexes (f : faults) : world -> outcome * world :=
  with_driver f "Error creating vector indexes: " (vector_indexes_body f).

(** A store as the ingestion leaves it: nodes only. *)
Definition ingested (ns : list node) : db := mkDb ns [] [].

(** A fresh execution on store [d]: nothing printed yet. *)
Definition start (d : db) : world := mkWorld d [].

(** The store after one execution of the reconstruction under [f]. *)
Definition reconstruct (f : faults) (d : db) : db :=
  store (snd (create_thread_relationships f (start d))).

(** The store after one execution under each of [fs], in turn. *)
Definition reconstruct_all (fs : list faults) (d : db) : db :=
  fold_left (fun acc f => reconstruct f acc) fs d.

(** The store after one execution of the index script under [f]. *)
Definition reindex (f : faults) (d : db) : db :=
  store (snd (create_vector_indexes f (start d))).

End Script.

Import Cypher Store Script.

(* ================================================================== *)
(** ** Reading the statements: the words of the specification *)

(** Node [i] of the store is the content node [n]. *)
Definition is_content (d : db) (i : nat) (n : node) : Prop :=
  nth_error (nodes d) i = Some n /\ In "RedditContent" (labels n).

(** [tid] begins with [frag] followed by the separator. *)
Definition boundary_match (frag tid : string) : Prop :=
  exists rest, tid = frag ++ "_" ++ rest.

(** Node [j] is a candidate for the fragment [frag] resolved on behalf of
    the node whose id is [sid]. *)
Definition resolves_to (d : db) (sid frag : string) (j : nat) (t : node)
  : Prop :=
  is_content d j t /\
  exists tid, id t = Some tid /\ boundary_match frag tid /\ tid <> sid.

(** Node [n] passes the filter of a pass: its reference [r] is present,
    not empty and not its own id [sid]. *)
Definition eligible (ref : node -> value) (n : node) (r sid : string)
  : Prop :=
  ref n = Some r /\ id n = Some sid /\ r <> sid /\ r <> "".

(** The pair (source [i], candidate [j]) satisfies the filter and the
    prefix match of the pass that reads [ref] and normalizes with [norm]. *)
Definition matched (ref : node -> value) (norm : value -> value) (d : db)
           (i j : nat) : Prop :=
  exists s t r sid frag,
    is_content d i s /\ eligible ref s r sid /\
    norm (Some r) = Some frag /\ resolves_to d sid frag j t.

(** ** The passes, when the store accepts them *)

Definition pass (k : rel_type) (ref : node -> value)
           (processed : value -> value) (d : db) : db :=
  mkDb (nodes d) (merge_rows k (rows ref processed d) (rels d)) (indexes d).

Definition reply_pass : db -> db :=
  pass REPLIES_TO parent_id processed_parent_id.

Definition thread_pass : db -> db :=
  pass BELONGS_TO_THREAD link_id processed_thread_id.

Definition is_self_loop (r : rel) : bool := Nat.eqb (src r) (dst r).

Definition rel_eq_dec (a b : rel) : {a = b} + {a <> b}.
Proof.
  decide equality; try apply Nat.eq_dec.
  decide equality.
Defined.

(** What makes the [n]-th statement raise, if anything: the call itself,
    or the first pair among [rws] that the store refuses. *)
Definition statement_failure (f : faults) (n : nat) (k : rel_type)
           (rws : list (nat * nat)) : option string :=
  match run_fault f n with
  | Some m => Some m
  | None => first_rejected (reject f) k rws
  end.

Definition reply_query_failure (f : faults) (d : db) : option string :=
  statement_failure f 0 REPLIES_TO (rows parent_id processed_parent_id d).

Definition thread_query_failure (f : faults) (d : db) : option string :=
  statement_failure f 1 BELONGS_TO_THREAD
                    (rows link_id processed_thread_id d).

(** The first store call inside [try] that raises during the
    reconstruction of store [d], in program order. *)
Definition reconstruction_failure (f : faults) (d : db) : option string :=
  match session_fault f with
  | Some m => Some m
  | None =>
      match reply_query_failure f d with
      | Some m => Some m
      | None => thread_query_failure f (reply_pass d)
      end
  end.

(** The first store call inside [try] that raises during the index
    script. *)
Definition indexes_failure (f : faults) : option string :=
  match session_fault f with
  | Some m => Some m
  | None =>
  match run_fault f 0 with
  | Some m => Some m
  | None => run_fault f 1
  end end.

(** The indexes of the catalogue that are called [n]. *)
Definition named (n : string) (d : db) : list index :=
  filter (fun e => String.eqb (ix_name e) n) (indexes d).

(** What a clean execution of the index script prints. *)
Definition index_lines : list string :=
  [ "Creating Reddit content embeddings vector index...";
    "Creating topic embeddings vector index...";
    "✓ All vector indexes created successfully!" ].

(** The relationship of type [k] a row stands for. *)
Definition rel_of (k : rel_type) (p : nat * nat) : rel :=
  mkRel k (fst p) (snd p).

(** The edges of type [k] that link the pair [p] once it is merged into
    [rs]: those already there, or the one created. *)
Definition links_after (k : rel_type) (rs : list rel) (p : nat * nat)
  : nat :=
  Nat.max 1 (count_occ rel_eq_dec rs (rel_of k p)).

(** The count of a statement over the pairs [rws] on a store with edges
    [rs]: every pair counts once per edge that links it after the merge. *)
Definition reported (k : rel_type) (rws : list (nat * nat)) (rs : list rel)
  : nat :=
  list_sum (map (links_after k rs) rws).

Definition reply_count (d : db) : nat :=
  reported REPLIES_TO (rows parent_id processed_parent_id d) (rels d).

Definition thread_count (d : db) : nat :=
  reported BELONGS_TO_THREAD (rows link_id processed_thread_id d) (rels d).

(** No edge of the store has a parallel copy. *)
Definition simple (d : db) : Prop :=
  forall r, count_occ rel_eq_dec (rels d) r <= 1.

(** What a clean execution prints. *)
Definition clean_lines (d : db) : list string :=
  [ "Creating REPLIES_TO relationships...";
    "Created " ++ str (reply_count d) ++ " REPLIES_TO relationships";
    "Creating BELONGS_TO_THREAD relationships...";
    "Created " ++ str (thread_count d) ++ " BELONGS_TO_THREAD relationships";
    "✓ Thread relationships creation completed!" ].

(** ** Concrete stores *)

Definition content (i p l : value) : node := mkNode ["RedditContent"] i p l.

(** The end-to-end scenario of the specification. *)
Definition scenario : list node :=
  [ content (Some "t3_100") None None;
    content (Some "t1_100_1") (Some "t3_100") (Some "t3_100");
    content (Some "t1_100_2") (Some "t1_100_1") (Some "t3_100") ].

(** A relationship read through the ids of its two nodes. *)
Definition rel_ids (ns : list node) (r : rel) : rel_type * value * value :=
  (rtype r,
   match nth_error ns (src r) with Some n => id n | None => None end,
   match nth_error ns (dst r) with Some n => id n | None => None end).

(** The prefix-boundary test: [abc_1], [abcd_1], and a node that refers
    to [t1_abc]. *)
Definition boundary : list node :=
  [ content (Some "abc_1") None None;
    content (Some "abcd_1") None None;
    content (Some "zzz_1") (Some "t1_abc") None ].

(** One submission in two chunks and two comments on it. *)
Definition batch : list node :=
  [ content (Some "a_0") None None;
    content (Some "a_1") None None;
    content (Some "b_0") (Some "t3_a") (Some "t3_a");
    content (Some "c_0") (Some "t3_a") (Some "t3_a") ].

(** The store refuses the first reply pair of [batch]. *)
Definition refuse_first : faults :=
  mkFaults None None (fun _ => None)
           (fun r => if rel_eqb r (mkRel REPLIES_TO 2 0)
                     then Some "constraint violation" else None)
           None.

(** The connection is lost on the second statement. *)
Definition lost_on_second : faults :=
  mkFaults None None
           (fun n => if Nat.eqb n 1 then Some "connection lost" else None)
           (fun _ => None) None.

(** The address in the environment has a scheme the driver refuses. *)
Definition bad_address : faults :=
  mkFaults (Some "URI scheme 'http' is not supported") None
           (fun _ => None) (fun _ => None) None.

(** [driver.close()] fails after a clean run. *)
Definition bad_close : faults :=
  mkFaults None None (fun _ => None) (fun _ => None)
           (Some "failed to close").

(** A catalogue that already has the content index name, with other
    settings. *)
Definition stale_index : index :=
  mkIndex "reddit_content_embeddings" "RedditContent" "content_embedding"
          384 "euclidean".

Definition stale : db := mkDb [] [] [stale_index].

(** [batch] with the first reply edge already in the store, twice. *)
Definition doubled : db :=
  mkDb batch [mkRel REPLIES_TO 2 0; mkRel REPLIES_TO 2 0] [].

(** ** Edges, catalogue entries and the command line *)

(** The reference [ref] of node [n] is skipped by the first [WHERE]
    (lines 29-31 and 54-56): it is absent, empty or the node's own id, or
    the node has no id to compare it with. *)
Definition skipped (ref : node -> value) (n : node) : Prop :=
  ref n = None \/ ref n = Some "" \/ ref n = id n \/ id n = None.

(** The relationship [r] is one the statements ask for on store [d]. *)
Definition linked (d : db) (r : rel) : Prop :=
  (rtype r = REPLIES_TO /\
   matched parent_id processed_parent_id d (src r) (dst r)) \/
  (rtype r = BELONGS_TO_THREAD /\
   matched link_id processed_thread_id d (src r) (dst r)).

(** The relationship [r] joins two different content nodes of [d], both
    with an id, and the two ids differ. *)
Definition joins_content (d : db) (r : rel) : Prop :=
  src r <> dst r /\
  exists s t sid tid,
    is_content d (src r) s /\ is_content d (dst r) t /\
    id s = Some sid /\ id t = Some tid /\ sid <> tid.

(** The label and property an index is declared over. *)
Definition ix_schema (e : index) : string * string :=
  (ix_label e, ix_property e).

(** The catalogue has an index that stands for the declaration [ix]: one
    of its name, or one over its label and property. *)
Definition covered (ix : index) (d : db) : Prop :=
  exists e, In e (indexes d) /\
            (ix_name e = ix_name ix \/ ix_schema e = ix_schema ix).


Definition newline : string := String (ascii_of_nat 10) "".

(** The line a script prints last, after [success = f()]. *)
Definition banner (success : bool) (good bad : string) : string :=
  newline ++ (if success then good else bad).



(** A store with one content node, and a catalogue that has the content
    index under another name. *)
Definition lonely : db :=
  ingested [content (Some "a_0") (Some "t3_a") (Some "t3_a")].

Definition renamed : db :=
  mkDb [] []
       [mkIndex "old_embeddings" "RedditContent" "content_embedding"
                1024 "cosine"].

(** The session cannot be opened. *)
Definition no_session : faults :=
  mkFaults None (Some "service unavailable") (fun _ => None)
           (fun _ => None) None.

(** The number of nodes [MATCH (x:RedditContent)] binds. *)
Definition content_count (d : db) : nat :=
  List.length (match_label "RedditContent" d).

(* ================================================================== *)
(** ** Strings and the ternary logic *)

Section StringFacts.

Lemma starts_app (p r : string) : starts p (p ++ r) = true.
Proof.
  induction p as [|a p IH]; simpl.
  - reflexivity.
  - now rewrite Ascii.eqb_refl, IH.
Qed.

Lemma starts_inv (p s : string) :
  starts p s = true -> exists r, s = p ++ r.
Proof.
  revert s; induction p as [|a p IH]; intros s H; simpl in *.
  - now exists s.
  - destruct s as [|b s]; [discriminate|].
    apply andb_true_iff in H as [Hab Hps].
    apply Ascii.eqb_eq in Hab; subst b.
    destruct (IH _ Hps) as [r ->].
    now exists r.
Qed.

Lemma starts_iff (p s : string) :
  starts p s = true <-> exists r, s = p ++ r.
Proof.
  split.
  - apply starts_inv.
  - intros [r ->]; apply starts_app.
Qed.

Lemma drop_app (p r : string) : drop (String.length p) (p ++ r) = r.
Proof. induction p as [|a p IH]; simpl; auto. Qed.

Lemma append_assoc (a b c : string) : (a ++ b) ++ c = a ++ (b ++ c).
Proof. induction a as [|x a IH]; simpl; [|rewrite IH]; reflexivity. Qed.

Lemma holds_and3 (a b : tern) :
  holds (and3 a b) = holds a && holds b.
Proof. destruct a as [[|]|], b as [[|]|]; reflexivity. Qed.

Lemma holds_neq (a b : value) :
  holds (neq a b) = true <-> exists x y, a = Some x /\ b = Some y /\ x <> y.
Proof.
  destruct a as [x|], b as [y|]; simpl; split;
    try discriminate; try (intros (? & ? & ? & ? & _); discriminate).
  - intros H. exists x, y. repeat split.
    destruct (String.eqb_spec x y); [discriminate | assumption].
  - intros (x' & y' & [= <-] & [= <-] & Hxy).
    destruct (String.eqb_spec x y); [contradiction | reflexivity].
Qed.

Lemma holds_starts_with (s p : value) :
  holds (starts_with s p) = true <->
  exists x y, s = Some x /\ p = Some y /\ exists r, x = y ++ r.
Proof.
  destruct s as [x|], p as [y|]; simpl; split;
    try discriminate; try (intros (? & ? & ? & ? & _); discriminate).
  - intros H. exists x, y. repeat split.
    apply starts_inv. now destruct (starts y x).
  - intros (x' & y' & [= <-] & [= <-] & r & ->).
    now rewrite starts_app.
Qed.

End StringFacts.

(* ================================================================== *)
(** ** Normalization of references *)

(** C5.  In the reply pass a reference that starts with [t1_] or with
    [t3_] loses exactly that prefix, and any other reference is returned
    unchanged; in the thread pass only [t3_] is stripped, so a reference
    that does not start with [t3_] (one that starts with [t1_] included)
    is returned unchanged. *)
Theorem normalization_strips_known_prefix (s : string) :
  (forall r, s = "t1_" ++ r -> processed_parent_id (Some s) = Some r) /\
  (forall r, s = "t3_" ++ r -> processed_parent_id (Some s) = Some r) /\
  (starts "t1_" s = false -> starts "t3_" s = false ->
   processed_parent_id (Some s) = Some s) /\
  (forall r, s = "t3_" ++ r -> processed_thread_id (Some s) = Some r) /\
  (starts "t3_" s = false -> processed_thread_id (Some s) = Some s).
Proof.
  unfold processed_parent_id, processed_thread_id.
  repeat split.
  - intros r ->. reflexivity.
  - intros r ->. reflexivity.
  - intros H1 H3. cbn [case_when starts_with holds].
    now rewrite H1, H3.
  - intros r ->. reflexivity.
  - intros H3. cbn [case_when starts_with holds].
    now rewrite H3.
Qed.

Lemma normalization_strips_known_prefix_witness :
  processed_parent_id (Some "t1_xyz") = Some "xyz" /\
  processed_parent_id (Some "t3_xyz") = Some "xyz" /\
  processed_parent_id (Some "xyz") = Some "xyz" /\
  processed_parent_id (Some "t1_t3_xyz") = Some "t3_xyz" /\
  processed_thread_id (Some "t3_xyz") = Some "xyz" /\
  processed_thread_id (Some "t1_xyz") = Some "t1_xyz" /\
  processed_thread_id (Some "xyz") = Some "xyz".
Proof.
  pose proof (normalization_strips_known_prefix "t1_xyz")
    as (R1 & _ & _ & _ & T1).
  pose proof (normalization_strips_known_prefix "t3_xyz")
    as (_ & R3 & _ & T3 & _).
  pose proof (normalization_strips_known_prefix "xyz")
    as (_ & _ & R0 & _ & T0).
  pose proof (normalization_strips_known_prefix "t1_t3_xyz")
    as (R13 & _).
  refine (conj (R1 _ _) (conj (R3 _ _) (conj (R0 _ _) (conj (R13 _ _)
            (conj (T3 _ _) (conj (T1 _) (T0 _))))))); reflexivity.
Defined.

(* ================================================================== *)
(** ** Matching nodes *)

Section Matching.

Lemma in_combine_seq (A : Type) (l : list A) (a i : nat) (x : A) :
  In (i, x) (combine (seq a (List.length l)) l) <->
  exists k, i = a + k /\ nth_error l k = Some x.
Proof.
  revert a; induction l as [|y l IH]; intros a; simpl.
  - split; [contradiction|]. intros (k & _ & H). now destruct k.
  - rewrite IH. split.
    + intros [[= <- <-] | (k & -> & H)].
      * exists 0. split; [lia | reflexivity].
      * exists (S k). split; [lia | assumption].
    + intros ([|k] & -> & H); simpl in H.
      * left. injection H as ->. f_equal. lia.
      * right. exists k. split; [lia | assumption].
Qed.

Lemma map_fst_combine_seq (A : Type) (l : list A) (a : nat) :
  map fst (combine (seq a (List.length l)) l) = seq a (List.length l).
Proof.
  revert a; induction l as [|y l IH]; intros a; simpl; [|rewrite IH];
    reflexivity.
Qed.

Lemma NoDup_map_fst_filter (A B : Type) (f : A * B -> bool)
      (l : list (A * B)) :
  NoDup (map fst l) -> NoDup (map fst (filter f l)).
Proof.
  induction l as [|x l IH]; simpl; intros H; [constructor|].
  inversion H as [|? ? Hx Hl]; subst.
  destruct (f x); simpl; [constructor|]; auto.
  intros Hin. apply Hx.
  apply in_map_iff in Hin as (y & Hy & Hin).
  apply filter_In in Hin as [Hin _].
  apply in_map_iff. now exists y.
Qed.

Lemma NoDup_of_map (A B : Type) (g : A -> B) (l : list A) :
  NoDup (map g l) -> NoDup l.
Proof.
  induction l as [|x l IH]; simpl; intros H; constructor;
    inversion H; subst; auto.
  intros Hin. apply (in_map g) in Hin. contradiction.
Qed.

Lemma has_label_In (l : string) (n : node) :
  has_label l n = true <-> In l (labels n).
Proof.
  unfold has_label. rewrite existsb_exists. split.
  - intros (x & Hin & Heq). apply String.eqb_eq in Heq. now subst.
  - intros Hin. exists l. split; [assumption | apply String.eqb_refl].
Qed.

Lemma match_label_In (l : string) (d : db) (i : nat) (n : node) :
  In (i, n) (match_label l d) <->
  nth_error (nodes d) i = Some n /\ In l (labels n).
Proof.
  unfold match_label. rewrite filter_In, in_combine_seq, has_label_In.
  simpl. split.
  - intros [(k & -> & H) Hl]. now split.
  - intros [H Hl]. split; [exists i|]; auto.
Qed.

Lemma match_label_NoDup (l : string) (d : db) :
  NoDup (map fst (match_label l d)).
Proof.
  unfold match_label. apply NoDup_map_fst_filter.
  rewrite map_fst_combine_seq. apply seq_NoDup.
Qed.

Lemma match_label_nodes (l : string) (d d' : db) :
  nodes d = nodes d' -> match_label l d = match_label l d'.
Proof. unfold match_label. now intros ->. Qed.

Lemma target_filter_spec (frag : string) (source target : node) :
  target_filter (Some frag) source target = true <->
  exists tid sid, id target = Some tid /\ id source = Some sid /\
                  boundary_match frag tid /\ tid <> sid.
Proof.
  unfold target_filter, boundary_match.
  rewrite holds_and3, andb_true_iff, holds_starts_with, holds_neq.
  simpl. split.
  - intros [(x & y & Hx & [= <-] & r & ->) (x' & sid & Hx' & Hs & Hne)].
    rewrite Hx in Hx'. injection Hx' as <-.
    exists ((frag ++ "_") ++ r), sid. repeat split; auto.
    exists r. apply append_assoc.
  - intros (tid & sid & Ht & Hs & (r & ->) & Hne). split.
    + exists (frag ++ "_" ++ r), (frag ++ "_"). repeat split; auto.
      exists r. symmetry. apply append_assoc.
    + now exists (frag ++ "_" ++ r), sid.
Qed.

Lemma candidates_In (d : db) (source : node) (frag : string)
      (j : nat) (t : node) :
  In (j, t) (candidates d source (Some frag)) <->
  exists sid, id source = Some sid /\ resolves_to d sid frag j t.
Proof.
  unfold candidates, resolves_to, is_content.
  rewrite filter_In, match_label_In, target_filter_spec. simpl. split.
  - intros [Hc (tid & sid & Ht & Hs & Hb & Hne)].
    exists sid. split; [assumption|]. split; [assumption|].
    now exists tid.
  - intros (sid & Hs & Hc & tid & Ht & Hb & Hne).
    split; [assumption|]. now exists tid, sid.
Qed.

Lemma candidates_NoDup_fst (d : db) (source : node) (p : value) :
  NoDup (map fst (candidates d source p)).
Proof.
  unfold candidates. apply NoDup_map_fst_filter, match_label_NoDup.
Qed.

Lemma candidates_null (d : db) (source : node) :
  candidates d source None = [].
Proof.
  unfold candidates.
  induction (match_label "RedditContent" d) as [|x l IH]; simpl; auto.
  replace (target_filter None source (snd x)) with false; [assumption|].
  unfold target_filter. simpl.
  destruct (id (snd x)) as [a|]; simpl; [|reflexivity].
  destruct (id source) as [b|]; simpl; [|reflexivity].
  now destruct (negb (a =? b)%string).
Qed.

End Matching.

(** C2.  The candidates resolved for a fragment on behalf of a node are
    exactly the content nodes whose id is the fragment, the separator and
    some rest, and differs from the id of the resolving node, each of them
    once.  With nodes [abc_1] and [abcd_1] in the store, the fragment
    [abc] resolves to [abc_1] alone, and so does the reference [t1_abc] of
    the third node. *)
Theorem candidates_are_boundary_matches :
  (forall (d : db) (source : node) (frag : string),
      NoDup (candidates d source (Some frag)) /\
      forall j t, In (j, t) (candidates d source (Some frag)) <->
                  exists sid, id source = Some sid /\
                              resolves_to d sid frag j t) /\
  candidates (ingested boundary)
             (content (Some "zzz_1") (Some "t1_abc") None) (Some "abc")
  = [(0, content (Some "abc_1") None None)] /\
  rows parent_id processed_parent_id (ingested boundary) = [(2, 0)].
Proof.
  split; [|split; reflexivity].
  intros d source frag. split.
  - apply NoDup_of_map with (g := fst), candidates_NoDup_fst.
  - intros j t. apply candidates_In.
Qed.

(* ================================================================== *)
(** ** Merging relationships *)

Section Merging.

Lemma rel_eqb_eq (a b : rel) : rel_eqb a b = true <-> a = b.
Proof.
  unfold rel_eqb. rewrite !andb_true_iff, !Nat.eqb_eq.
  destruct a as [ka sa da], b as [kb sb db']; simpl. split.
  - intros [[Hk ->] ->]. f_equal. now destruct ka, kb.
  - intros [= -> -> ->]. repeat split. now destruct kb.
Qed.

Lemma merge_present (rs : list rel) (x : rel) :
  In x rs -> merge rs x = rs.
Proof.
  intros Hin. unfold merge.
  replace (existsb (rel_eqb x) rs) with true; [reflexivity|].
  symmetry. apply existsb_exists. exists x. split; [assumption|].
  now apply rel_eqb_eq.
Qed.

Lemma merge_absent (rs : list rel) (x : rel) :
  ~ In x rs -> merge rs x = (rs ++ [x])%list.
Proof.
  intros Hn. unfold merge.
  destruct (existsb (rel_eqb x) rs) eqn:E; [|reflexivity].
  apply existsb_exists in E as (y & Hy & Hxy).
  apply rel_eqb_eq in Hxy. subst y. contradiction.
Qed.

Lemma merge_cases (rs : list rel) (x : rel) :
  (In x rs /\ merge rs x = rs) \/ (~ In x rs /\ merge rs x = (rs ++ [x])%list).
Proof.
  destruct (in_dec rel_eq_dec x rs) as [Hin|Hn].
  - left. split; [assumption | now apply merge_present].
  - right. split; [assumption | now apply merge_absent].
Qed.

Lemma merge_In (rs : list rel) (x r : rel) :
  In r (merge rs x) <-> In r rs \/ r = x.
Proof.
  destruct (merge_cases rs x) as [[Hin ->] | [Hn ->]].
  - split; [now left | intros [H | ->]; assumption].
  - rewrite in_app_iff. simpl. split.
    + intros [H | [<- | []]]; auto.
    + intros [H | ->]; auto.
Qed.

Lemma merge_count (rs : list rel) (x r : rel) :
  count_occ rel_eq_dec (merge rs x) r
  <= Nat.max 1 (count_occ rel_eq_dec rs r).
Proof.
  destruct (merge_cases rs x) as [[Hin ->] | [Hn ->]]; [lia|].
  rewrite count_occ_app.
  change (count_occ rel_eq_dec [x] r) with (if rel_eq_dec x r then 1 else 0).
  destruct (rel_eq_dec x r) as [->|Hne]; [|lia].
  apply (count_occ_not_In rel_eq_dec) in Hn. lia.
Qed.

Lemma merge_loops (rs : list rel) (x : rel) :
  is_self_loop x = false ->
  filter is_self_loop (merge rs x) = filter is_self_loop rs.
Proof.
  intros Hx.
  destruct (merge_cases rs x) as [[Hin ->] | [Hn ->]]; [reflexivity|].
  rewrite filter_app. simpl. rewrite Hx. apply app_nil_r.
Qed.

Lemma merge_rows_In (k : rel_type) (rws : list (nat * nat))
      (rs : list rel) (r : rel) :
  In r (merge_rows k rws rs) <->
  In r rs \/ exists p, In p rws /\ r = mkRel k (fst p) (snd p).
Proof.
  unfold merge_rows. revert rs.
  induction rws as [|q rws IH]; intros rs; simpl.
  - split; [now left | intros [H | (p & [] & _)]; assumption].
  - rewrite IH, merge_In. split.
    + intros [[H | ->] | (p & Hp & ->)]; eauto.
    + intros [H | (p & [<- | Hp] & ->)]; eauto.
Qed.

Lemma merge_rows_fixed (k : rel_type) (rws : list (nat * nat))
      (rs : list rel) :
  (forall p, In p rws -> In (mkRel k (fst p) (snd p)) rs) ->
  merge_rows k rws rs = rs.
Proof.
  unfold merge_rows. induction rws as [|q rws IH]; simpl; intros H.
  - reflexivity.
  - rewrite merge_present by (apply H; now left).
    apply IH. intros p Hp. apply H. now right.
Qed.

Lemma merge_rows_count (k : rel_type) (rws : list (nat * nat))
      (rs : list rel) (r : rel) :
  count_occ rel_eq_dec (merge_rows k rws rs) r
  <= Nat.max 1 (count_occ rel_eq_dec rs r).
Proof.
  unfold merge_rows. revert rs.
  induction rws as [|q rws IH]; intros rs; cbn [fold_left]; [lia|].
  specialize (IH (merge rs (mkRel k (fst q) (snd q)))).
  pose proof (merge_count rs (mkRel k (fst q) (snd q)) r). lia.
Qed.

Lemma merge_rows_loops (k : rel_type) (rws : list (nat * nat))
      (rs : list rel) :
  (forall p, In p rws -> fst p <> snd p) ->
  filter is_self_loop (merge_rows k rws rs) = filter is_self_loop rs.
Proof.
  unfold merge_rows. revert rs.
  induction rws as [|q rws IH]; intros rs H; simpl; [reflexivity|].
  rewrite IH by (intros p Hp; apply H; now right).
  apply merge_loops. unfold is_self_loop. simpl.
  apply Nat.eqb_neq, H. now left.
Qed.

End Merging.

(* ================================================================== *)
(** ** The rows of a statement *)

Section Rows.

Variable ref : node -> value.
Variable norm : value -> value.

Lemma source_filter_spec (n : node) :
  source_filter ref n = true <-> exists r sid, eligible ref n r sid.
Proof.
  unfold source_filter, eligible.
  rewrite !holds_and3, !andb_true_iff, !holds_neq. split.
  - intros [[_ (r & sid & Hr & Hs & Hne)] (r' & e & Hr' & [= <-] & Hne')].
    rewrite Hr in Hr'. injection Hr' as <-.
    now exists r, sid.
  - intros (r & sid & Hr & Hs & Hne & Hne'). repeat split.
    + now rewrite Hr.
    + now exists r, sid.
    + now exists r, "".
Qed.

Lemma rows_In (d : db) (i j : nat) :
  In (i, j) (rows ref norm d) <-> matched ref norm d i j.
Proof.
  unfold rows, matched. rewrite in_flat_map. split.
  - intros ([i' s] & Hs & Hin). simpl in Hin.
    apply filter_In in Hs as [Hs Hf]. simpl in Hf.
    apply match_label_In in Hs.
    apply source_filter_spec in Hf as (r & sid & Hel).
    apply in_map_iff in Hin as ([j' t] & [= -> ->] & Hin).
    destruct Hel as (Hr & Hsid & Hel). rewrite Hr in Hin.
    destruct (norm (Some r)) as [frag|] eqn:Hn;
      [|now rewrite candidates_null in Hin].
    apply candidates_In in Hin as (sid' & Hsid' & Hres).
    rewrite Hsid in Hsid'. injection Hsid' as <-.
    exists s, t, r, sid, frag. unfold eligible. auto.
  - intros (s & t & r & sid & frag & Hs & Hel & Hn & Hres).
    exists (i, s). split.
    + apply filter_In. split; [now apply match_label_In|].
      apply source_filter_spec. now exists r, sid.
    + simpl. apply in_map_iff. exists (j, t). split; [reflexivity|].
      destruct Hel as (Hr & Hsid & _). rewrite Hr, Hn.
      apply candidates_In. now exists sid.
Qed.

Lemma rows_irreflexive (d : db) (p : nat * nat) :
  In p (rows ref norm d) -> fst p <> snd p.
Proof.
  destruct p as [i j]. rewrite rows_In. simpl.
  intros (s & t & r & sid & frag & [Hs _] & (_ & Hsid & _) & _ & Hres) ->.
  destruct Hres as ([Ht _] & tid & Htid & _ & Hne).
  rewrite Hs in Ht. injection Ht as <-. congruence.
Qed.

Lemma NoDup_pairs (srcs : list (nat * node))
      (targets : nat * node -> list (nat * node)) :
  NoDup (map fst srcs) ->
  (forall s, NoDup (map fst (targets s))) ->
  NoDup (flat_map (fun s => map (fun t => (fst s, fst t)) (targets s)) srcs).
Proof.
  intros Hs Ht. induction srcs as [|s srcs IH]; simpl; [constructor|].
  inversion Hs as [|? ? Hx Hl]; subst.
  apply NoDup_app; auto.
  - specialize (Ht s). revert Ht.
    induction (targets s) as [|t ts IHt]; simpl; intros Hts; constructor;
      inversion Hts; subst; auto.
    intros Hin. apply in_map_iff in Hin as (t' & [= Heq] & Hin).
    apply (in_map fst) in Hin. congruence.
  - intros [i j] Hin Hin'.
    apply in_map_iff in Hin as (t & [= <- _] & _).
    apply in_flat_map in Hin' as (s' & Hs' & Hin').
    apply in_map_iff in Hin' as (t' & [= Heq _] & _).
    apply Hx. rewrite <- Heq. now apply in_map.
Qed.

Lemma rows_NoDup (d : db) : NoDup (rows ref norm d).
Proof.
  unfold rows. apply NoDup_pairs.
  - apply NoDup_map_fst_filter, match_label_NoDup.
  - intros s. apply candidates_NoDup_fst.
Qed.

Lemma rows_nodes (d d' : db) :
  nodes d = nodes d' -> rows ref norm d = rows ref norm d'.
Proof.
  intros H. unfold rows, candidates.
  now rewrite (match_label_nodes "RedditContent" d d' H).
Qed.

Variable k : rel_type.

Lemma pass_nodes (d : db) : nodes (pass k ref norm d) = nodes d.
Proof. reflexivity. Qed.

Lemma pass_indexes (d : db) : indexes (pass k ref norm d) = indexes d.
Proof. reflexivity. Qed.

Lemma pass_keeps (d : db) (r : rel) :
  In r (rels d) -> In r (rels (pass k ref norm d)).
Proof. intros H. apply merge_rows_In. now left. Qed.

Lemma pass_adds (d : db) (p : nat * nat) :
  In p (rows ref norm d) ->
  In (mkRel k (fst p) (snd p)) (rels (pass k ref norm d)).
Proof. intros H. apply merge_rows_In. right. now exists p. Qed.

Lemma pass_fixed (d : db) :
  (forall p, In p (rows ref norm d) ->
             In (mkRel k (fst p) (snd p)) (rels d)) ->
  pass k ref norm d = d.
Proof.
  intros H. unfold pass. rewrite merge_rows_fixed by assumption.
  now destruct d.
Qed.

Lemma pass_twice (d : db) :
  pass k ref norm (pass k ref norm d) = pass k ref norm d.
Proof.
  apply pass_fixed. intros p Hp. apply pass_adds.
  now rewrite (rows_nodes d (pass k ref norm d) eq_refl).
Qed.

Lemma pass_count (d : db) (r : rel) :
  count_occ rel_eq_dec (rels (pass k ref norm d)) r
  <= Nat.max 1 (count_occ rel_eq_dec (rels d) r).
Proof. apply merge_rows_count. Qed.

Lemma pass_loops (d : db) :
  filter is_self_loop (rels (pass k ref norm d))
  = filter is_self_loop (rels d).
Proof. apply merge_rows_loops, rows_irreflexive. Qed.

End Rows.

(* ================================================================== *)
(** ** The rows MERGE passes on *)

Section Yields.

Lemma matching_count (rs : list rel) (r : rel) :
  List.length (matching rs r) = count_occ rel_eq_dec rs r.
Proof.
  unfold matching. induction rs as [|x rs IH]; [reflexivity|].
  cbn [filter count_occ].
  destruct (rel_eq_dec x r) as [->|Hne].
  - replace (rel_eqb r r) with true by (symmetry; now apply rel_eqb_eq).
    cbn [List.length]. now rewrite IH.
  - destruct (rel_eqb r x) eqn:E; [|assumption].
    apply rel_eqb_eq in E. now elim Hne.
Qed.

Lemma yielded_links (k : rel_type) (rs : list rel) (p : nat * nat) :
  yielded rs (mkRel k (fst p) (snd p)) = links_after k rs p.
Proof.
  unfold yielded, links_after, rel_of. rewrite <- matching_count.
  destruct (matching rs _) as [|m ms]; cbn [List.length]; lia.
Qed.

Lemma merge_count_eq (rs : list rel) (x r : rel) :
  count_occ rel_eq_dec (merge rs x) r
  = if rel_eq_dec x r then Nat.max 1 (count_occ rel_eq_dec rs r)
    else count_occ rel_eq_dec rs r.
Proof.
  destruct (merge_cases rs x) as [[Hin ->] | [Hn ->]].
  - destruct (rel_eq_dec x r) as [->|_]; [|reflexivity].
    apply (count_occ_In rel_eq_dec) in Hin. lia.
  - rewrite count_occ_app.
    change (count_occ rel_eq_dec [x] r)
      with (if rel_eq_dec x r then 1 else 0).
    destruct (rel_eq_dec x r) as [->|_]; [|lia].
    apply (count_occ_not_In rel_eq_dec) in Hn. lia.
Qed.

Lemma merge_rows_count_eq (k : rel_type) (rws : list (nat * nat))
      (rs : list rel) (r : rel) :
  count_occ rel_eq_dec (merge_rows k rws rs) r
  = if in_dec rel_eq_dec r (map (rel_of k) rws)
    then Nat.max 1 (count_occ rel_eq_dec rs r)
    else count_occ rel_eq_dec rs r.
Proof.
  unfold merge_rows. revert rs.
  induction rws as [|q rws IH]; intros rs; cbn [fold_left map].
  - now destruct (in_dec rel_eq_dec r []).
  - rewrite IH. fold (rel_of k q). rewrite merge_count_eq.
    destruct (in_dec rel_eq_dec r (map (rel_of k) rws)) as [Hin|Hn];
      destruct (in_dec rel_eq_dec r (rel_of k q :: map (rel_of k) rws))
      as [Hin'|Hn'];
      destruct (rel_eq_dec (rel_of k q) r) as [Heq|Hne];
      try lia; exfalso; cbn [In] in *; tauto.
Qed.

Lemma rel_of_inj (k : rel_type) (p q : nat * nat) :
  rel_of k p = rel_of k q -> p = q.
Proof.
  destruct p, q. unfold rel_of. simpl. now intros [= -> ->].
Qed.

Lemma reported_ext (k : rel_type) (rws : list (nat * nat))
      (rs rs' : list rel) :
  (forall p, In p rws -> links_after k rs' p = links_after k rs p) ->
  reported k rws rs' = reported k rws rs.
Proof.
  intros H. unfold reported. f_equal. now apply map_ext_in.
Qed.

Lemma reported_cons (k : rel_type) (q : nat * nat)
      (rws : list (nat * nat)) (rs : list rel) :
  reported k (q :: rws) rs = links_after k rs q + reported k rws rs.
Proof. reflexivity. Qed.

Lemma yield_rows_reported (k : rel_type) (rws : list (nat * nat))
      (rs : list rel) :
  NoDup rws -> yield_rows k rws rs = reported k rws rs.
Proof.
  revert rs. induction rws as [|q rws IH]; intros rs Hnd; [reflexivity|].
  inversion Hnd as [|? ? Hq Hnd']; subst.
  cbn [yield_rows]. rewrite yielded_links, IH by assumption.
  rewrite reported_cons. f_equal.
  apply reported_ext. intros p Hp. unfold links_after.
  fold (rel_of k q). rewrite merge_count_eq.
  destruct (rel_eq_dec (rel_of k q) (rel_of k p)) as [Heq|_];
    [|reflexivity].
  apply rel_of_inj in Heq. subst. contradiction.
Qed.

Lemma reported_single (k : rel_type) (rws : list (nat * nat))
      (rs : list rel) :
  (forall p, In p rws -> count_occ rel_eq_dec rs (rel_of k p) <= 1) ->
  reported k rws rs = List.length rws.
Proof.
  intros H.
  induction rws as [|q rws IH]; [reflexivity|].
  rewrite reported_cons, IH by (intros p Hp; apply H; now right).
  cbn [List.length].
  unfold links_after. specialize (H q (or_introl eq_refl)). lia.
Qed.

Lemma reported_merged (k k' : rel_type) (rws rws' : list (nat * nat))
      (rs : list rel) :
  reported k rws (merge_rows k' rws' rs) = reported k rws rs.
Proof.
  apply reported_ext. intros p _. unfold links_after.
  rewrite merge_rows_count_eq.
  destruct (in_dec rel_eq_dec (rel_of k p) (map (rel_of k') rws')); lia.
Qed.

End Yields.

(* ================================================================== *)
(** ** Executions of the reconstruction script *)

Section Reconstruction.

Lemma replies_statement_ok (f : faults) (d : db) :
  first_rejected (reject f) REPLIES_TO
                 (rows parent_id processed_parent_id d) = None ->
  replies_statement (reject f) d = Ok (reply_pass d, reply_count d).
Proof.
  intros H. unfold replies_statement, run_statement. rewrite H.
  now rewrite yield_rows_reported by apply rows_NoDup.
Qed.

Lemma threads_statement_ok (f : faults) (d : db) :
  first_rejected (reject f) BELONGS_TO_THREAD
                 (rows link_id processed_thread_id d) = None ->
  threads_statement (reject f) d = Ok (thread_pass d, thread_count d).
Proof.
  intros H. unfold threads_statement, run_statement. rewrite H.
  now rewrite yield_rows_reported by apply rows_NoDup.
Qed.

Lemma thread_count_after_replies (d : db) :
  thread_count (reply_pass d) = thread_count d.
Proof.
  unfold thread_count.
  rewrite (@rows_nodes link_id processed_thread_id (reply_pass d) d
             eq_refl).
  apply reported_merged.
Qed.

Lemma counts_after_clean_run (d : db) :
  reply_count (thread_pass (reply_pass d)) = reply_count d /\
  thread_count (thread_pass (reply_pass d)) = thread_count d.
Proof.
  unfold reply_count, thread_count.
  rewrite (@rows_nodes parent_id processed_parent_id
             (thread_pass (reply_pass d)) d eq_refl).
  rewrite (@rows_nodes link_id processed_thread_id
             (thread_pass (reply_pass d)) d eq_refl).
  unfold thread_pass, reply_pass, pass. cbn [rels nodes].
  now rewrite !reported_merged.
Qed.

Lemma first_rejected_no_faults (k : rel_type) (rws : list (nat * nat)) :
  first_rejected (reject no_faults) k rws = None.
Proof. induction rws as [|p rws IH]; simpl; auto. Qed.

Lemma clean_execution (f : faults) (w : world) :
  driver_fault f = None -> close_fault f = None ->
  reconstruction_failure f (store w) = None ->
  create_thread_relationships f w
  = (Returns true,
     mkWorld (thread_pass (reply_pass (store w)))
             (stdout w ++ clean_lines (store w))).
Proof.
  intros Hd Hc Hf.
  unfold reconstruction_failure, reply_query_failure, thread_query_failure,
    statement_failure in Hf.
  destruct (session_fault f) eqn:Hs; [discriminate|].
  destruct (run_fault f 0) eqn:H0; [discriminate|].
  destruct (first_rejected (reject f) REPLIES_TO _) eqn:Hr; [discriminate|].
  destruct (run_fault f 1) eqn:H1; [discriminate|].
  unfold create_thread_relationships, with_driver, thread_relationships_body,
    bind, open_session, session_run, print.
  rewrite Hd, Hs, H0. cbn [print_line store stdout].
  rewrite (replies_statement_ok f _ Hr). cbn [print_line store stdout].
  rewrite H1, (threads_statement_ok f _ Hf), Hc.
  unfold print_line, clean_lines. cbn [store stdout].
  rewrite thread_count_after_replies.
  repeat rewrite <- app_assoc. reflexivity.
Qed.

Lemma reconstruct_no_faults (d : db) :
  reconstruct no_faults d = thread_pass (reply_pass d).
Proof.
  unfold reconstruct. rewrite clean_execution; try reflexivity.
  unfold reconstruction_failure, reply_query_failure, thread_query_failure,
    statement_failure.
  cbn [session_fault run_fault no_faults].
  now rewrite !first_rejected_no_faults.
Qed.

Lemma reconstruct_cases (f : faults) (d : db) :
  reconstruct f d = d \/ reconstruct f d = reply_pass d \/
  reconstruct f d = thread_pass (reply_pass d).
Proof.
  unfold reconstruct, create_thread_relationships, with_driver,
    thread_relationships_body, bind, open_session, session_run, print,
    replies_statement, threads_statement, run_statement.
  destruct (driver_fault f); [now left|].
  destruct (session_fault f); [destruct (close_fault f); now left|].
  cbn [print_line store stdout start].
  destruct (run_fault f 0); [destruct (close_fault f); now left|].
  destruct (first_rejected (reject f) REPLIES_TO _);
    [destruct (close_fault f); now left|].
  cbn [print_line store stdout].
  destruct (run_fault f 1); [destruct (close_fault f); right; now left|].
  destruct (first_rejected (reject f) BELONGS_TO_THREAD _);
    [destruct (close_fault f); right; now left|].
  destruct (close_fault f); right; now right.
Qed.

Lemma reply_pass_settled (d : db) :
  reply_pass (thread_pass (reply_pass d)) = thread_pass (reply_pass d).
Proof.
  apply pass_fixed. intros p Hp.
  apply pass_keeps, pass_adds.
  now rewrite (rows_nodes parent_id processed_parent_id d
                          (thread_pass (reply_pass d)) eq_refl).
Qed.

Lemma thread_pass_settled (d : db) :
  thread_pass (thread_pass (reply_pass d)) = thread_pass (reply_pass d).
Proof.
  apply pass_fixed. intros p Hp.
  apply pass_adds.
  now rewrite (rows_nodes link_id processed_thread_id (reply_pass d)
                          (thread_pass (reply_pass d)) eq_refl).
Qed.

Lemma reconstruct_settled (f : faults) (d : db) :
  reconstruct f (thread_pass (reply_pass d)) = thread_pass (reply_pass d).
Proof.
  destruct (reconstruct_cases f (thread_pass (reply_pass d)))
    as [-> | [-> | ->]]; auto using reply_pass_settled.
  now rewrite reply_pass_settled, thread_pass_settled.
Qed.

Lemma reconstruct_count (f : faults) (d : db) (r : rel) :
  count_occ rel_eq_dec (rels (reconstruct f d)) r
  <= Nat.max 1 (count_occ rel_eq_dec (rels d) r).
Proof.
  pose proof (pass_count parent_id processed_parent_id REPLIES_TO d r)
    as Hr.
  pose proof (pass_count link_id processed_thread_id BELONGS_TO_THREAD
                         (reply_pass d) r) as Ht.
  fold reply_pass in Hr, Ht. fold thread_pass in Ht.
  destruct (reconstruct_cases f d) as [-> | [-> | ->]]; lia.
Qed.

Lemma reconstruct_loops (f : faults) (d : db) :
  filter is_self_loop (rels (reconstruct f d))
  = filter is_self_loop (rels d).
Proof.
  pose proof (pass_loops parent_id processed_parent_id REPLIES_TO d) as Hr.
  pose proof (pass_loops link_id processed_thread_id BELONGS_TO_THREAD
                         (reply_pass d)) as Ht.
  fold reply_pass in Hr, Ht. fold thread_pass in Ht.
  destruct (reconstruct_cases f d) as [-> | [-> | ->]]; congruence.
Qed.

Lemma reconstruct_all_count (fs : list faults) (d : db) (r : rel) :
  count_occ rel_eq_dec (rels (reconstruct_all fs d)) r
  <= Nat.max 1 (count_occ rel_eq_dec (rels d) r).
Proof.
  unfold reconstruct_all. revert d.
  induction fs as [|f fs IH]; intros d; cbn [fold_left]; [lia|].
  specialize (IH (reconstruct f d)).
  pose proof (reconstruct_count f d r). lia.
Qed.

Lemma reconstruct_all_loops (fs : list faults) (d : db) :
  filter is_self_loop (rels (reconstruct_all fs d))
  = filter is_self_loop (rels d).
Proof.
  unfold reconstruct_all. revert d.
  induction fs as [|f fs IH]; intros d; cbn [fold_left]; [reflexivity|].
  now rewrite IH, reconstruct_loops.
Qed.

End Reconstruction.

(* ================================================================== *)
(** ** Properties of the reconstruction *)

(** C1, as the specification states it, does not hold: on the three-node
    scenario the run does not end with the two reply edges and the two
    thread edges of the specification and two printed counts of 2. *)
Lemma scenario_expected_edges_missing :
  let w := snd (create_thread_relationships no_faults
                  (start (ingested scenario))) in
  ~ ((forall e, In e (map (rel_ids scenario) (rels (store w))) <->
                In e [ (REPLIES_TO, Some "t1_100_2", Some "t1_100_1");
                       (REPLIES_TO, Some "t1_100_1", Some "t3_100");
                       (BELONGS_TO_THREAD, Some "t1_100_1", Some "t3_100");
                       (BELONGS_TO_THREAD, Some "t1_100_2", Some "t3_100") ])
     /\ In "Created 2 REPLIES_TO relationships" (stdout w)
     /\ In "Created 2 BELONGS_TO_THREAD relationships" (stdout w)).
Proof.
  intros w [H _].
  specialize (H (REPLIES_TO, Some "t1_100_2", Some "t1_100_1")).
  destruct H as [_ H]. apply H. now left.
Qed.

(** C1, amended.  On the three-node scenario the references [t3_100] and
    [t1_100_1] normalize to [100] and [100_1]; no id of the scenario
    starts with [100_] or [100_1_], so no candidate is resolved, no edge
    is created and both printed counts are 0; the run returns [True]. *)
Theorem scenario_creates_no_edges :
  processed_parent_id (Some "t3_100") = Some "100" /\
  processed_parent_id (Some "t1_100_1") = Some "100_1" /\
  processed_thread_id (Some "t3_100") = Some "100" /\
  rows parent_id processed_parent_id (ingested scenario) = [] /\
  rows link_id processed_thread_id (ingested scenario) = [] /\
  create_thread_relationships no_faults (start (ingested scenario))
  = (Returns true,
     mkWorld (ingested scenario)
             [ "Creating REPLIES_TO relationships...";
               "Created 0 REPLIES_TO relationships";
               "Creating BELONGS_TO_THREAD relationships...";
               "Created 0 BELONGS_TO_THREAD relationships";
               "✓ Thread relationships creation completed!" ]).
Proof. repeat split. Qed.

(** C3.  A pass repeated on the store it left creates no edge, and a run
    on the store a clean run left creates none either: the store is
    unchanged, whatever happens during that second run.  And however
    many runs are made, clean or failing, an edge that was not duplicated
    in the starting store is never duplicated: between an ordered pair of
    nodes at most one edge of each kind exists, and on a store that starts
    without edges every edge exists at most once. *)
Theorem reconstruction_is_idempotent :
  (forall d : db,
      reply_pass (reply_pass d) = reply_pass d /\
      thread_pass (thread_pass d) = thread_pass d) /\
  (forall (d : db) (f : faults),
      reconstruct f (reconstruct no_faults d) = reconstruct no_faults d) /\
  (forall (d : db) (fs : list faults) (r : rel),
      count_occ rel_eq_dec (rels (reconstruct_all fs d)) r
      <= Nat.max 1 (count_occ rel_eq_dec (rels d) r)) /\
  (forall (ns : list node) (fs : list faults) (r : rel),
      count_occ rel_eq_dec (rels (reconstruct_all fs (ingested ns))) r <= 1).
Proof.
  split; [|split; [|split]].
  - intros d. split; apply pass_twice.
  - intros d f. rewrite reconstruct_no_faults. apply reconstruct_settled.
  - intros d fs r. apply reconstruct_all_count.
  - intros ns fs r.
    pose proof (reconstruct_all_count fs (ingested ns) r) as H.
    simpl in H. exact H.
Qed.

(** C4.  Runs of the reconstruction, clean or failing, never add an edge
    from a node to itself: the self-loops of the store are those it
    started with, so a store that starts without edges never has one,
    whatever the references of its nodes; a node whose [parent_id] and
    [link_id] are its own id gets no edge at all. *)
Theorem reconstruction_adds_no_self_loop :
  (forall (d : db) (fs : list faults),
      filter is_self_loop (rels (reconstruct_all fs d))
      = filter is_self_loop (rels d)) /\
  (forall (ns : list node) (fs : list faults),
      Forall (fun r => src r <> dst r)
             (rels (reconstruct_all fs (ingested ns)))) /\
  (forall (i : string) (fs : list faults),
      rels (reconstruct_all fs
              (ingested [content (Some i) (Some i) (Some i)])) = []).
Proof.
  assert (Hloops : forall ns fs,
             Forall (fun r => src r <> dst r)
                    (rels (reconstruct_all fs (ingested ns)))).
  { intros ns fs. apply Forall_forall. intros r Hin Heq.
    assert (Hl : In r (filter is_self_loop
                         (rels (reconstruct_all fs (ingested ns))))).
    { apply filter_In. split; [assumption|]. now apply Nat.eqb_eq. }
    now rewrite reconstruct_all_loops in Hl. }
  split; [|split].
  - intros d fs. apply reconstruct_all_loops.
  - exact Hloops.
  - intros i fs.
    set (d := ingested [content (Some i) (Some i) (Some i)]).
    assert (Hfix : forall f, reconstruct f d = d).
    { intros f.
      assert (Hr : reply_pass d = d).
      { apply pass_fixed. intros [a b] Hin. exfalso.
        apply rows_In in Hin
          as (s & t & r & sid & frag & [Hs _] & (Hp & Hsid & Hne & _) & _).
        destruct a as [|[|a]]; simpl in Hs; try discriminate.
        injection Hs as <-. simpl in Hp, Hsid. congruence. }
      assert (Ht : thread_pass d = d).
      { apply pass_fixed. intros [a b] Hin. exfalso.
        apply rows_In in Hin
          as (s & t & r & sid & frag & [Hs _] & (Hp & Hsid & Hne & _) & _).
        destruct a as [|[|a]]; simpl in Hs; try discriminate.
        injection Hs as <-. simpl in Hp, Hsid. congruence. }
      destruct (reconstruct_cases f d) as [-> | [-> | ->]];
        rewrite ?Hr, ?Ht; reflexivity. }
    unfold reconstruct_all.
    induction fs as [|f fs IH]; cbn [fold_left]; [reflexivity|].
    now rewrite Hfix.
Qed.

(** C10, as stated, does not hold on every store.  In [doubled] the
    reply statement has four matched pairs, each once, but the pair (2, 0)
    already has two [REPLIES_TO] edges and [MERGE] passes on a row for
    each: the run prints a count of 5. *)
Lemma doubled_edge_is_counted_twice :
  NoDup (rows parent_id processed_parent_id doubled) /\
  (forall i j, In (i, j) (rows parent_id processed_parent_id doubled) <->
               matched parent_id processed_parent_id doubled i j) /\
  List.length (rows parent_id processed_parent_id doubled) = 4 /\
  stdout (snd (create_thread_relationships no_faults (start doubled)))
  = [ "Creating REPLIES_TO relationships...";
      "Created 5 REPLIES_TO relationships";
      "Creating BELONGS_TO_THREAD relationships...";
      "Created 4 BELONGS_TO_THREAD relationships";
      "✓ Thread relationships creation completed!" ].
Proof.
  split; [apply rows_NoDup|].
  split; [intros i j; apply rows_In|].
  split; reflexivity.
Qed.

(** C10, amended.  The rows of a pass are, each once, the pairs (source
    node, candidate) that satisfy the filter and the prefix match of the
    pass, and do not depend on the edges of the store.  The count a pass
    reports is the sum, over these pairs, of the number of edges of its
    type that link the pair after the merge: one, or as many as were
    already there.  When no matched pair already has two or more such
    edges, which is so on every store reached from an ingested one by
    clean or failing runs, the count is the number of matched pairs,
    counted whether or not the merge created an edge.  On every store a
    second run on the store a clean run left prints the same two counts as
    the first although it creates no edge.  In [batch] each comment
    matches both chunks of the submission and counts twice: both passes
    report 4. *)
Theorem count_is_number_of_matched_pairs :
  (forall d : db,
      let replies := rows parent_id processed_parent_id d in
      let threads := rows link_id processed_thread_id d in
      (NoDup replies /\
       forall i j, In (i, j) replies <->
                   matched parent_id processed_parent_id d i j) /\
      (NoDup threads /\
       forall i j, In (i, j) threads <->
                   matched link_id processed_thread_id d i j) /\
      (forall rs ixs,
          rows parent_id processed_parent_id (mkDb (nodes d) rs ixs)
          = replies /\
          rows link_id processed_thread_id (mkDb (nodes d) rs ixs)
          = threads) /\
      (let printed :=
         [ "Creating REPLIES_TO relationships...";
           "Created " ++ str (reported REPLIES_TO replies (rels d))
             ++ " REPLIES_TO relationships";
           "Creating BELONGS_TO_THREAD relationships...";
           "Created " ++ str (reported BELONGS_TO_THREAD threads (rels d))
             ++ " BELONGS_TO_THREAD relationships";
           "✓ Thread relationships creation completed!" ] in
       stdout (snd (create_thread_relationships no_faults (start d)))
       = printed /\
       stdout (snd (create_thread_relationships no_faults
                      (start (reconstruct no_faults d))))
       = printed /\
       reconstruct no_faults (reconstruct no_faults d)
       = reconstruct no_faults d) /\
      ((forall p, In p replies ->
                  count_occ rel_eq_dec (rels d) (rel_of REPLIES_TO p) <= 1) ->
       reported REPLIES_TO replies (rels d) = List.length replies) /\
      ((forall p, In p threads ->
                  count_occ rel_eq_dec (rels d) (rel_of BELONGS_TO_THREAD p)
                  <= 1) ->
       reported BELONGS_TO_THREAD threads (rels d) = List.length threads)) /\
  (forall (ns : list node) (fs : list faults),
      let d := reconstruct_all fs (ingested ns) in
      reported REPLIES_TO (rows parent_id processed_parent_id d) (rels d)
      = List.length (rows parent_id processed_parent_id d) /\
      reported BELONGS_TO_THREAD (rows link_id processed_thread_id d) (rels d)
      = List.length (rows link_id processed_thread_id d)) /\
  rows parent_id processed_parent_id (ingested batch)
  = [(2, 0); (2, 1); (3, 0); (3, 1)] /\
  In "Created 4 REPLIES_TO relationships"
     (stdout (snd (create_thread_relationships no_faults
                     (start (ingested batch))))) /\
  In "Created 4 BELONGS_TO_THREAD relationships"
     (stdout (snd (create_thread_relationships no_faults
                     (start (reconstruct no_faults (ingested batch)))))).
Proof.
  assert (Hnf : forall d, reconstruction_failure no_faults d = None).
  { intros d. unfold reconstruction_failure, reply_query_failure,
      thread_query_failure, statement_failure.
    cbn [session_fault run_fault no_faults].
    now rewrite !first_rejected_no_faults. }
  split; [|split].
  - intros d replies threads.
    split; [|split; [|split; [|split; [|split]]]].
    + split; [apply rows_NoDup | intros i j; apply rows_In].
    + split; [apply rows_NoDup | intros i j; apply rows_In].
    + intros rs ixs. split; now apply rows_nodes.
    + split; [|split].
      * rewrite clean_execution; auto.
      * rewrite clean_execution; auto.
        cbn [snd stdout start app store]. unfold clean_lines.
        rewrite reconstruct_no_faults.
        destruct (counts_after_clean_run d) as [-> ->]. reflexivity.
      * rewrite (reconstruct_no_faults d). apply reconstruct_settled.
    + apply reported_single.
    + apply reported_single.
  - intros ns fs d.
    assert (Hs : forall r, count_occ rel_eq_dec (rels d) r <= 1).
    { intros r. subst d.
      pose proof (reconstruct_all_count fs (ingested ns) r) as H.
      simpl in H. exact H. }
    split; apply reported_single; intros p _; apply Hs.
  - split; [reflexivity|]. split; vm_compute; tauto.
Qed.

Lemma count_is_number_of_matched_pairs_witness :
  reported REPLIES_TO (rows parent_id processed_parent_id (ingested batch))
           (rels (ingested batch))
  = List.length (rows parent_id processed_parent_id (ingested batch)) /\
  reported BELONGS_TO_THREAD
           (rows link_id processed_thread_id (ingested batch))
           (rels (ingested batch))
  = List.length (rows link_id processed_thread_id (ingested batch)).
Proof.
  pose proof (proj1 count_is_number_of_matched_pairs (ingested batch))
    as (_ & _ & _ & _ & Hr & Ht).
  split; [apply Hr | apply Ht]; intros p _; simpl; lia.
Defined.

(** C6, as the specification states it, does not hold.  In [batch] the
    store refuses the first reply pair; the pair (3, 1) is a row of both
    passes, yet neither its reply edge nor its thread edge exists after
    the run, which stops at the failure and returns [False]. *)
Lemma refused_pair_stops_the_run :
  let r := create_thread_relationships refuse_first
             (start (ingested batch)) in
  In (3, 1) (rows parent_id processed_parent_id (ingested batch)) /\
  In (3, 1) (rows link_id processed_thread_id (ingested batch)) /\
  ~ In (mkRel REPLIES_TO 3 1) (rels (store (snd r))) /\
  ~ In (mkRel BELONGS_TO_THREAD 3 1) (rels (store (snd r))) /\
  r = (Returns false,
       mkWorld (ingested batch)
               [ "Creating REPLIES_TO relationships...";
                 "Error creating thread relationships: constraint violation"
               ]).
Proof.
  vm_compute. repeat split; tauto.
Qed.

(** C6, amended.  When the driver is built, the session opens and the
    driver closes without error, a query failure is fatal for the whole
    run.  If the reply statement fails, the store is left as it was, the
    thread pass is not run, and the run prints the cause and returns
    [False].  If the reply statement succeeds and the thread statement
    fails, the store holds the reply edges and no new thread edge, and the
    run prints the cause and returns [False]. *)
Theorem query_failure_aborts_the_run (f : faults) (d : db) (msg : string) :
  driver_fault f = None -> session_fault f = None -> close_fault f = None ->
  (reply_query_failure f d = Some msg ->
   create_thread_relationships f (start d)
   = (Returns false,
      mkWorld d
              [ "Creating REPLIES_TO relationships...";
                "Error creating thread relationships: " ++ msg ])) /\
  (reply_query_failure f d = None ->
   thread_query_failure f (reply_pass d) = Some msg ->
   create_thread_relationships f (start d)
   = (Returns false,
      mkWorld (reply_pass d)
              [ "Creating REPLIES_TO relationships...";
                "Created " ++ str (reply_count d)
                  ++ " REPLIES_TO relationships";
                "Creating BELONGS_TO_THREAD relationships...";
                "Error creating thread relationships: " ++ msg ])).
Proof.
  intros Hd Hs Hc.
  unfold reply_query_failure, thread_query_failure, statement_failure,
    create_thread_relationships, with_driver, thread_relationships_body,
    bind, open_session, session_run, print.
  rewrite Hd, Hs, Hc. cbn [print_line store stdout start app].
  split.
  - intros Hq. destruct (run_fault f 0) as [m|].
    + injection Hq as ->. reflexivity.
    + unfold replies_statement, run_statement. rewrite Hq. reflexivity.
  - intros Hq Ht. destruct (run_fault f 0) as [m|]; [discriminate|].
    rewrite (replies_statement_ok f d Hq).
    cbn [print_line store stdout start app].
    destruct (run_fault f 1) as [m|].
    + injection Ht as ->. reflexivity.
    + unfold threads_statement, run_statement. rewrite Ht. reflexivity.
Qed.

Lemma query_failure_aborts_the_run_witness :
  create_thread_relationships refuse_first (start (ingested batch))
  = (Returns false,
     mkWorld (ingested batch)
             [ "Creating REPLIES_TO relationships...";
               "Error creating thread relationships: constraint violation" ])
  /\
  create_thread_relationships lost_on_second (start (ingested batch))
  = (Returns false,
     mkWorld (reply_pass (ingested batch))
             [ "Creating REPLIES_TO relationships...";
               "Created " ++ str (reply_count (ingested batch))
                 ++ " REPLIES_TO relationships";
               "Creating BELONGS_TO_THREAD relationships...";
               "Error creating thread relationships: connection lost" ]).
Proof.
  split.
  - apply (proj1 (query_failure_aborts_the_run
                    refuse_first (ingested batch) "constraint violation"
                    eq_refl eq_refl eq_refl)).
    reflexivity.
  - apply (proj2 (query_failure_aborts_the_run
                    lost_on_second (ingested batch) "connection lost"
                    eq_refl eq_refl eq_refl)); reflexivity.
Defined.

(* ================================================================== *)
(** ** The index catalogue *)

Section Catalogue.

Lemma declare_cases (ix : index) (d : db) :
  (create_vector_index_if_not_exists ix d = d /\
   exists e, In e (indexes d) /\
             (ix_name e = ix_name ix \/ same_schema e ix = true)) \/
  (create_vector_index_if_not_exists ix d
   = mkDb (nodes d) (rels d) (indexes d ++ [ix]) /\
   forall e, In e (indexes d) ->
             ix_name e <> ix_name ix /\ same_schema e ix = false).
Proof.
  unfold create_vector_index_if_not_exists.
  destruct (existsb _ (indexes d)) eqn:E.
  - left. split; [reflexivity|].
    apply existsb_exists in E as (e & Hin & He).
    exists e. split; [assumption|].
    apply orb_true_iff in He as [He | He]; [left | now right].
    now apply String.eqb_eq.
  - right. split; [reflexivity|]. intros e Hin.
    assert (He : same_name e ix || same_schema e ix = false).
    { destruct (same_name e ix || same_schema e ix) eqn:E'; [|reflexivity].
      rewrite <- E. symmetry. apply existsb_exists. now exists e. }
    apply orb_false_iff in He as [Hn Hs]. split; [|assumption].
    now apply String.eqb_neq.
Qed.

Lemma declare_keeps (ix : index) (d : db) (e : index) :
  In e (indexes d) -> In e (indexes (create_vector_index_if_not_exists ix d)).
Proof.
  intros Hin. destruct (declare_cases ix d) as [[-> _] | [-> _]]; auto.
  simpl. apply in_or_app. now left.
Qed.

Lemma declare_settled (ix : index) (d : db) :
  In ix (indexes d) -> create_vector_index_if_not_exists ix d = d.
Proof.
  intros Hin. destruct (declare_cases ix d) as [[H _] | [_ H]]; auto.
  destruct (H ix Hin) as [Hn _]. now elim Hn.
Qed.

Lemma declare_twice (ix : index) (d : db) :
  create_vector_index_if_not_exists ix
    (create_vector_index_if_not_exists ix d)
  = create_vector_index_if_not_exists ix d.
Proof.
  destruct (declare_cases ix d) as [[H _] | [H _]]; rewrite H.
  - assumption.
  - apply declare_settled. simpl. apply in_or_app. right. now left.
Qed.

Lemma named_absent (n : string) (l : list index) :
  (forall e, In e l -> ix_name e <> n) ->
  filter (fun e => String.eqb (ix_name e) n) l = [].
Proof.
  induction l as [|x l IH]; simpl; intros H; [reflexivity|].
  destruct (String.eqb_spec (ix_name x) n) as [Heq|_].
  - elim (H x); auto.
  - apply IH. intros e He. apply H. now right.
Qed.

Lemma named_unique (l : list index) (e : index) :
  NoDup (map ix_name l) -> In e l ->
  List.length (filter (fun x => String.eqb (ix_name x) (ix_name e)) l) = 1.
Proof.
  induction l as [|x l IH]; simpl; intros Hnd Hin; [contradiction|].
  inversion Hnd as [|? ? Hx Hl]; subst.
  destruct (String.eqb_spec (ix_name x) (ix_name e)) as [Heq|Hne].
  - simpl. f_equal. rewrite named_absent; [reflexivity|].
    intros y Hy Hey. apply Hx. rewrite Heq, <- Hey. now apply in_map.
  - destruct Hin as [-> | Hin]; [now elim Hne|]. now apply IH.
Qed.

(** One declaration on a catalogue with distinct names, in which only
    an index of the same name may cover the same label and property. *)
Lemma declare_named (ix : index) (d : db) :
  NoDup (map ix_name (indexes d)) ->
  (forall e, In e (indexes d) -> same_schema e ix = true ->
             ix_name e = ix_name ix) ->
  let d' := create_vector_index_if_not_exists ix d in
  NoDup (map ix_name (indexes d')) /\
  List.length (named (ix_name ix) d') = 1 /\
  (forall n, n <> ix_name ix -> named n d' = named n d).
Proof.
  intros Hnd Hsch d'. subst d'.
  destruct (declare_cases ix d) as [[-> (e & Hin & He)] | [-> Hno]].
  - split; [assumption|]. split; [|reflexivity].
    assert (Hn : ix_name e = ix_name ix) by (destruct He; auto).
    unfold named. rewrite <- Hn. now apply named_unique.
  - unfold named. cbn [indexes]. split; [|split].
    + rewrite map_app. simpl. apply NoDup_app; auto.
      * constructor; [intros [] | constructor].
      * intros n Hin [<- | []].
        apply in_map_iff in Hin as (e & Hn & Hin).
        now destruct (Hno e Hin).
    + rewrite filter_app, named_absent by (intros e He; now apply Hno).
      simpl. now rewrite String.eqb_refl.
    + intros n Hn. rewrite filter_app. simpl.
      destruct (String.eqb_spec (ix_name ix) n) as [Heq|_];
        [now elim Hn | apply app_nil_r].
Qed.

Lemma clean_indexing (f : faults) (w : world) :
  driver_fault f = None -> close_fault f = None ->
  indexes_failure f = None ->
  create_vector_indexes f w
  = (Returns true,
     mkWorld (create_vector_index_if_not_exists topic_embeddings
                (create_vector_index_if_not_exists reddit_content_embeddings
                   (store w)))
             (stdout w ++ index_lines)).
Proof.
  intros Hd Hc Hf. unfold indexes_failure in Hf.
  destruct (session_fault f) eqn:Hs; [discriminate|].
  destruct (run_fault f 0) eqn:H0; [discriminate|].
  unfold create_vector_indexes, with_driver, vector_indexes_body, bind,
    open_session, session_run, print, declare_index.
  rewrite Hd, Hs, H0. cbn [print_line store stdout].
  rewrite Hf, Hc. unfold print_line, index_lines. cbn [store stdout].
  repeat rewrite <- app_assoc. reflexivity.
Qed.

Lemma reindex_no_faults (d : db) :
  reindex no_faults d
  = create_vector_index_if_not_exists topic_embeddings
      (create_vector_index_if_not_exists reddit_content_embeddings d).
Proof. unfold reindex. now rewrite clean_indexing. Qed.

Lemma reindex_cases (f : faults) (d : db) :
  reindex f d = d \/
  reindex f d = create_vector_index_if_not_exists reddit_content_embeddings d
  \/
  reindex f d
  = create_vector_index_if_not_exists topic_embeddings
      (create_vector_index_if_not_exists reddit_content_embeddings d).
Proof.
  unfold reindex, create_vector_indexes, with_driver, vector_indexes_body,
    bind, open_session, session_run, print, declare_index.
  destruct (driver_fault f); [now left|].
  destruct (session_fault f); [destruct (close_fault f); now left|].
  cbn [print_line store stdout start].
  destruct (run_fault f 0); [destruct (close_fault f); now left|].
  cbn [print_line store stdout].
  destruct (run_fault f 1); [destruct (close_fault f); right; now left|].
  destruct (close_fault f); right; now right.
Qed.

Lemma reindex_settled (f : faults) (d : db) :
  reindex f (reindex no_faults d) = reindex no_faults d.
Proof.
  assert (Hr : create_vector_index_if_not_exists reddit_content_embeddings
                 (reindex no_faults d) = reindex no_faults d).
  { rewrite reindex_no_faults.
    destruct (declare_cases reddit_content_embeddings d)
      as [[-> (e & Hin & He)] | [-> _]].
    - destruct (declare_cases reddit_content_embeddings
                  (create_vector_index_if_not_exists topic_embeddings d))
        as [[H _] | [_ H]]; [assumption|].
      destruct (H e (declare_keeps topic_embeddings d e Hin)) as [Hn Hs].
      destruct He; congruence.
    - apply declare_settled, declare_keeps. simpl.
      apply in_or_app. right. now left. }
  assert (Ht : create_vector_index_if_not_exists topic_embeddings
                 (reindex no_faults d) = reindex no_faults d).
  { rewrite reindex_no_faults. apply declare_twice. }
  destruct (reindex_cases f (reindex no_faults d)) as [-> | [-> | ->]];
    rewrite ?Hr, ?Ht; reflexivity.
Qed.

End Catalogue.

(** C9.  On a catalogue without indexes a clean run of the index script
    leaves exactly two indexes: [reddit_content_embeddings] over
    [RedditContent.content_embedding] and [topic_embeddings] over
    [Topic.embedding], both with 1024 dimensions and cosine similarity.
    On any catalogue a clean run only appends, and appends nothing but
    these two; a further run after it, clean or failing, changes nothing. *)
Theorem index_script_declares_two_indexes :
  (forall (ns : list node) (rs : list rel),
      indexes (reindex no_faults (mkDb ns rs []))
      = [ mkIndex "reddit_content_embeddings" "RedditContent"
                  "content_embedding" 1024 "cosine";
          mkIndex "topic_embeddings" "Topic" "embedding" 1024 "cosine" ]) /\
  (forall d : db,
      exists added,
        indexes (reindex no_faults d) = (indexes d ++ added)%list /\
        incl added [reddit_content_embeddings; topic_embeddings] /\
        nodes (reindex no_faults d) = nodes d /\
        rels (reindex no_faults d) = rels d) /\
  (forall (d : db) (f : faults),
      reindex f (reindex no_faults d) = reindex no_faults d).
Proof.
  split; [|split].
  - intros ns rs. reflexivity.
  - intros d. rewrite reindex_no_faults.
    destruct (declare_cases reddit_content_embeddings d)
      as [[-> _] | [-> _]];
      [ destruct (declare_cases topic_embeddings d) as [[-> _] | [-> _]]
      | destruct (declare_cases topic_embeddings
                    (mkDb (nodes d) (rels d)
                          (indexes d ++ [reddit_content_embeddings])))
          as [[-> _] | [-> _]] ];
      cbn [indexes nodes rels].
    + exists []. rewrite app_nil_r. repeat split. intros x [].
    + exists [topic_embeddings]. repeat split.
      intros x [<- | []]. right. now left.
    + exists [reddit_content_embeddings]. repeat split.
      intros x [<- | []]. now left.
    + exists [reddit_content_embeddings; topic_embeddings].
      rewrite <- app_assoc. repeat split. apply incl_refl.
  - intros d f. apply reindex_settled.
Qed.

(** C7, as the specification states it, does not hold.  The catalogue
    already has [reddit_content_embeddings] with 384 dimensions and
    euclidean similarity; the index script returns [True], prints its
    success lines and no error, and leaves that index as it was. *)
Lemma conflicting_index_is_silently_kept :
  create_vector_indexes no_faults (start stale)
  = (Returns true,
     mkWorld (mkDb [] [] [stale_index; topic_embeddings])
             [ "Creating Reddit content embeddings vector index...";
               "Creating topic embeddings vector index...";
               "✓ All vector indexes created successfully!" ]) /\
  stale_index <> reddit_content_embeddings /\
  ix_name stale_index = ix_name reddit_content_embeddings.
Proof.
  split; [reflexivity|]. split; [discriminate | reflexivity].
Qed.

(** C7, amended.  When the catalogue already has an index under one of
    the two names, whatever its configuration, a clean run of the index
    script returns [True], prints only its progress and success lines, and
    leaves the indexes of that name as they were.  When the names of the
    catalogue are distinct and no index under another name covers the
    label and property of either declaration, the catalogue has exactly
    one index of each of the two names after the script has run twice. *)
Theorem existing_index_name_is_kept (d : db) :
  (forall e, In e (indexes d) ->
             ix_name e = "reddit_content_embeddings" \/
             ix_name e = "topic_embeddings" ->
             create_vector_indexes no_faults (start d)
             = (Returns true,
                mkWorld (reindex no_faults d)
                        [ "Creating Reddit content embeddings vector index...";
                          "Creating topic embeddings vector index...";
                          "✓ All vector indexes created successfully!" ]) /\
             named (ix_name e) (reindex no_faults d) = named (ix_name e) d) /\
  (NoDup (map ix_name (indexes d)) ->
   (forall e, In e (indexes d) ->
              same_schema e reddit_content_embeddings = true ->
              ix_name e = "reddit_content_embeddings") ->
   (forall e, In e (indexes d) ->
              same_schema e topic_embeddings = true ->
              ix_name e = "topic_embeddings") ->
   List.length (named "reddit_content_embeddings"
                      (reindex no_faults (reindex no_faults d))) = 1 /\
   List.length (named "topic_embeddings"
                      (reindex no_faults (reindex no_faults d))) = 1).
Proof.
  split.
  - intros e Hin Hname. split.
    + rewrite reindex_no_faults. now rewrite clean_indexing.
    + rewrite reindex_no_faults. unfold named.
      destruct (declare_cases reddit_content_embeddings d)
        as [[-> _] | [-> Hr]];
        [ destruct (declare_cases topic_embeddings d) as [[-> _] | [-> Ht]]
        | destruct (declare_cases topic_embeddings
                      (mkDb (nodes d) (rels d)
                            (indexes d ++ [reddit_content_embeddings])))
            as [[-> _] | [-> Ht]] ];
        cbn [indexes]; try reflexivity;
        repeat rewrite filter_app; cbn [filter].
      * destruct (Ht e Hin) as [Hn _].
        destruct (String.eqb_spec (ix_name topic_embeddings) (ix_name e));
          [congruence | apply app_nil_r].
      * destruct (Hr e Hin) as [Hn _].
        destruct (String.eqb_spec (ix_name reddit_content_embeddings)
                                  (ix_name e));
          [congruence | apply app_nil_r].
      * destruct (Hr e Hin) as [Hn _].
        destruct (Ht e (in_or_app _ _ _ (or_introl Hin))) as [Hn' _].
        destruct (String.eqb_spec (ix_name reddit_content_embeddings)
                                  (ix_name e)); [congruence|].
        destruct (String.eqb_spec (ix_name topic_embeddings) (ix_name e));
          [congruence|].
        now rewrite !app_nil_r.
  - intros Hnd Hr Ht. rewrite reindex_settled, reindex_no_faults.
    destruct (declare_named reddit_content_embeddings d Hnd Hr)
      as (Hnd1 & Hone1 & Hothers1).
    set (d1 := create_vector_index_if_not_exists
                 reddit_content_embeddings d) in *.
    assert (Ht1 : forall e, In e (indexes d1) ->
                            same_schema e topic_embeddings = true ->
                            ix_name e = ix_name topic_embeddings).
    { intros e Hin Hs. subst d1.
      destruct (declare_cases reddit_content_embeddings d)
        as [[Heq _] | [Heq _]]; rewrite Heq in Hin.
      - now apply Ht.
      - cbn [indexes] in Hin. apply in_app_or in Hin as [Hin | [<- | []]].
        + now apply Ht.
        + discriminate. }
    destruct (declare_named topic_embeddings d1 Hnd1 Ht1)
      as (_ & Hone2 & Hothers2).
    split; [|exact Hone2].
    rewrite (Hothers2 "reddit_content_embeddings") by discriminate.
    exact Hone1.
Qed.

Lemma existing_index_name_is_kept_witness :
  (create_vector_indexes no_faults (start stale)
   = (Returns true,
      mkWorld (reindex no_faults stale)
              [ "Creating Reddit content embeddings vector index...";
                "Creating topic embeddings vector index...";
                "✓ All vector indexes created successfully!" ]) /\
   named (ix_name stale_index) (reindex no_faults stale)
   = named (ix_name stale_index) stale) /\
  (List.length (named "reddit_content_embeddings"
                      (reindex no_faults (reindex no_faults stale))) = 1 /\
   List.length (named "topic_embeddings"
                      (reindex no_faults (reindex no_faults stale))) = 1).
Proof.
  split.
  - apply (proj1 (existing_index_name_is_kept stale) stale_index).
    + now left.
    + now left.
  - apply (proj2 (existing_index_name_is_kept stale)).
    + repeat constructor. intros [].
    + intros e [<- | []] _. reflexivity.
    + intros e [<- | []]. discriminate.
Defined.

(* ================================================================== *)
(** ** Outcomes of the two scripts *)

Section Outcomes.

Lemma with_driver_guarded (f : faults) (banner : string) (body : M unit)
      (w : world) :
  driver_fault f = None -> close_fault f = None ->
  with_driver f banner body w
  = match body w with
    | (Ok _, w') => (Returns true, w')
    | (Raise e, w') => (Returns false, print_line (banner ++ e) w')
    end.
Proof.
  intros Hd Hc. unfold with_driver. rewrite Hd, Hc.
  now destruct (body w) as [[u|e] w'].
Qed.

Lemma last_printed (s : string) (w : world) :
  last (stdout (print_line s w)) "" = s.
Proof. unfold print_line. cbn [stdout]. apply last_last. Qed.

Lemma thread_body_raises (f : faults) (w : world) (m : string) :
  reconstruction_failure f (store w) = Some m ->
  fst (thread_relationships_body f w) = Raise m.
Proof.
  unfold reconstruction_failure, reply_query_failure, thread_query_failure,
    statement_failure, thread_relationships_body, bind, open_session,
    session_run, print, replies_statement, threads_statement, run_statement.
  destruct (session_fault f); [now intros [= ->]|].
  cbn [print_line store stdout].
  destruct (run_fault f 0); [now intros [= ->]|].
  destruct (first_rejected (reject f) REPLIES_TO _); [now intros [= ->]|].
  cbn [print_line store stdout].
  destruct (run_fault f 1); [now intros [= ->]|].
  fold (pass REPLIES_TO parent_id processed_parent_id (store w)).
  fold reply_pass.
  destruct (first_rejected (reject f) BELONGS_TO_THREAD _);
    [now intros [= ->] | discriminate].
Qed.

Lemma index_body_raises (f : faults) (w : world) (m : string) :
  indexes_failure f = Some m ->
  fst (vector_indexes_body f w) = Raise m.
Proof.
  unfold indexes_failure, vector_indexes_body, bind, open_session,
    session_run, print, declare_index.
  destruct (session_fault f); [now intros [= ->]|].
  cbn [print_line store stdout].
  destruct (run_fault f 0); [now intros [= ->]|].
  cbn [print_line store stdout].
  destruct (run_fault f 1); [now intros [= ->] | discriminate].
Qed.

End Outcomes.

(** C8, as the specification states it, does not hold: the driver is
    built before [try] and closed in [finally], so an exception raised by
    either call reaches the caller of both scripts. *)
Lemma driver_exceptions_propagate :
  create_thread_relationships bad_address (start (ingested batch))
  = (Propagates "URI scheme 'http' is not supported",
     start (ingested batch)) /\
  create_vector_indexes bad_address (start (ingested batch))
  = (Propagates "URI scheme 'http' is not supported",
     start (ingested batch)) /\
  fst (create_thread_relationships bad_close (start (ingested batch)))
  = Propagates "failed to close" /\
  fst (create_vector_indexes bad_close (start (ingested batch)))
  = Propagates "failed to close".
Proof. repeat split. Qed.

(** C8, amended.  In every execution of either script in which building
    the driver and closing it do not raise: the script returns [True] when
    no store call inside [try] raises; when one raises, the script returns
    [False] and the last line it prints is its error banner followed by
    the text of the first exception raised; in both cases nothing
    propagates to the caller. *)
Theorem guarded_failures_become_outcomes (f : faults) (w : world) :
  driver_fault f = None -> close_fault f = None ->
  (reconstruction_failure f (store w) = None ->
   fst (create_thread_relationships f w) = Returns true) /\
  (forall m, reconstruction_failure f (store w) = Some m ->
             fst (create_thread_relationships f w) = Returns false /\
             last (stdout (snd (create_thread_relationships f w))) ""
             = "Error creating thread relationships: " ++ m) /\
  (indexes_failure f = None ->
   fst (create_vector_indexes f w) = Returns true) /\
  (forall m, indexes_failure f = Some m ->
             fst (create_vector_indexes f w) = Returns false /\
             last (stdout (snd (create_vector_indexes f w))) ""
             = "Error creating vector indexes: " ++ m).
Proof.
  intros Hd Hc. split; [|split; [|split]].
  - intros Hf. now rewrite clean_execution.
  - intros m Hf. apply thread_body_raises in Hf.
    unfold create_thread_relationships.
    rewrite with_driver_guarded by assumption.
    destruct (thread_relationships_body f w) as [[u|e] w']; simpl in Hf;
      [discriminate|].
    injection Hf as ->. split; [reflexivity | apply last_printed].
  - intros Hf. now rewrite clean_indexing.
  - intros m Hf. apply (index_body_raises f w) in Hf.
    unfold create_vector_indexes.
    rewrite with_driver_guarded by assumption.
    destruct (vector_indexes_body f w) as [[u|e] w']; simpl in Hf;
      [discriminate|].
    injection Hf as ->. split; [reflexivity | apply last_printed].
Qed.

Lemma guarded_failures_become_outcomes_witness :
  fst (create_thread_relationships no_faults (start (ingested batch)))
  = Returns true /\
  (fst (create_thread_relationships lost_on_second (start (ingested batch)))
   = Returns false /\
   last (stdout (snd (create_thread_relationships lost_on_second
                        (start (ingested batch))))) ""
   = "Error creating thread relationships: connection lost") /\
  fst (create_vector_indexes no_faults (start (ingested batch)))
  = Returns true /\
  (fst (create_vector_indexes lost_on_second (start (ingested batch)))
   = Returns false /\
   last (stdout (snd (create_vector_indexes lost_on_second
                        (start (ingested batch))))) ""
   = "Error creating vector indexes: connection lost").
Proof.
  pose proof (guarded_failures_become_outcomes
                no_faults (start (ingested batch)) eq_refl eq_refl)
    as (Hok & _ & Hix & _).
  pose proof (guarded_failures_become_outcomes
                lost_on_second (start (ingested batch)) eq_refl eq_refl)
    as (_ & Hfail & _ & Hixfail).
  refine (conj (Hok _) (conj (Hfail _ _) (conj (Hix _) (Hixfail _ _))));
    reflexivity.
Defined.

(* ================================================================== *)
(** ** What the reconstruction keeps, adds and leaves alone *)

Section Edges.

Lemma merge_rows_extends (k : rel_type) (rws : list (nat * nat))
      (rs : list rel) :
  exists added, merge_rows k rws rs = (rs ++ added)%list.
Proof.
  unfold merge_rows. revert rs.
  induction rws as [|q rws IH]; intros rs; cbn [fold_left].
  - exists []. now rewrite app_nil_r.
  - destruct (IH (merge rs (mkRel k (fst q) (snd q)))) as [added ->].
    destruct (merge_cases rs (mkRel k (fst q) (snd q)))
      as [[_ ->] | [_ ->]].
    + now exists added.
    + exists (mkRel k (fst q) (snd q) :: added).
      now rewrite <- app_assoc.
Qed.

Lemma reconstruct_frame (f : faults) (d : db) :
  nodes (reconstruct f d) = nodes d /\
  indexes (reconstruct f d) = indexes d /\
  exists added, rels (reconstruct f d) = (rels d ++ added)%list.
Proof.
  destruct (merge_rows_extends REPLIES_TO
              (rows parent_id processed_parent_id d) (rels d)) as [a Ha].
  destruct (merge_rows_extends BELONGS_TO_THREAD
              (rows link_id processed_thread_id (reply_pass d))
              (rels (reply_pass d))) as [b Hb].
  destruct (reconstruct_cases f d) as [-> | [-> | ->]];
    (split; [reflexivity|]); (split; [reflexivity|]).
  - exists []. now rewrite app_nil_r.
  - exists a. exact Ha.
  - exists (a ++ b)%list. unfold thread_pass, pass at 1. cbn [rels].
    rewrite Hb. unfold reply_pass, pass at 1. cbn [rels].
    rewrite Ha. now rewrite app_assoc.
Qed.

Lemma reconstruct_all_nodes (fs : list faults) (d : db) :
  nodes (reconstruct_all fs d) = nodes d.
Proof.
  unfold reconstruct_all. revert d.
  induction fs as [|f fs IH]; intros d; cbn [fold_left]; [reflexivity|].
  rewrite IH. apply reconstruct_frame.
Qed.

Lemma matched_nodes (ref : node -> value) (norm : value -> value)
      (d d' : db) (i j : nat) :
  nodes d = nodes d' -> matched ref norm d i j -> matched ref norm d' i j.
Proof.
  intros Hn H. apply rows_In. rewrite <- (@rows_nodes ref norm d d' Hn).
  now apply rows_In.
Qed.

Lemma linked_nodes (d d' : db) (r : rel) :
  nodes d = nodes d' -> linked d r -> linked d' r.
Proof.
  intros Hn [[Hk H] | [Hk H]]; [left | right]; split; auto;
    now apply (@matched_nodes _ _ d d' _ _ Hn).
Qed.

Lemma pass_In (k : rel_type) (ref : node -> value) (norm : value -> value)
      (d : db) (r : rel) :
  In r (rels (pass k ref norm d)) <->
  In r (rels d) \/ (rtype r = k /\ matched ref norm d (src r) (dst r)).
Proof.
  unfold pass. cbn [rels]. rewrite merge_rows_In. split.
  - intros [H | ([i j] & Hin & ->)]; [now left | right].
    split; [reflexivity|]. now apply rows_In.
  - intros [H | [Hk Hm]]; [now left | right].
    exists (src r, dst r). split; [now apply rows_In|].
    destruct r as [k' a b]. simpl in *. now subst.
Qed.

Lemma clean_run_In (d : db) (r : rel) :
  In r (rels (reconstruct no_faults d)) <-> In r (rels d) \/ linked d r.
Proof.
  rewrite reconstruct_no_faults. unfold thread_pass, reply_pass, linked.
  rewrite !pass_In. split.
  - intros [[H | H] | [Hk H]]; auto.
  - intros [H | [H | [Hk H]]]; auto.
Qed.

Lemma reconstruct_In (f : faults) (d : db) (r : rel) :
  In r (rels (reconstruct f d)) -> In r (rels d) \/ linked d r.
Proof.
  intros Hin. apply clean_run_In. rewrite reconstruct_no_faults.
  destruct (reconstruct_cases f d) as [E | [E | E]]; rewrite E in Hin.
  - now apply pass_keeps, pass_keeps.
  - now apply pass_keeps.
  - assumption.
Qed.

Lemma reconstruct_all_In (fs : list faults) (d : db) (r : rel) :
  In r (rels (reconstruct_all fs d)) -> In r (rels d) \/ linked d r.
Proof.
  unfold reconstruct_all. revert d.
  induction fs as [|f fs IH]; intros d; cbn [fold_left]; [now left|].
  intros Hin. apply IH in Hin as [Hin | Hl].
  - now apply reconstruct_In with (f := f).
  - right. apply (@linked_nodes (reconstruct f d) d); [|assumption].
    apply (proj1 (reconstruct_frame f d)).
Qed.

Lemma matched_joins (ref : node -> value) (norm : value -> value)
      (d : db) (k : rel_type) (i j : nat) :
  matched ref norm d i j -> joins_content d (mkRel k i j).
Proof.
  intros H. split.
  - apply rows_In in H.
    exact (@rows_irreflexive ref norm d (i, j) H).
  - destruct H as (s & t & r & sid & frag & Hs & (_ & Hsid & _) & _ & Ht
                   & tid & Htid & _ & Hne).
    exists s, t, sid, tid. simpl. repeat split; auto; try apply Hs;
      try apply Ht.
Qed.

Lemma linked_joins (d : db) (r : rel) : linked d r -> joins_content d r.
Proof.
  destruct r as [k i j].
  intros [[_ H] | [_ H]]; simpl in H; eapply matched_joins; eassumption.
Qed.

Lemma matched_not_skipped (ref : node -> value) (norm : value -> value)
      (d : db) (i j : nat) (s : node) :
  nth_error (nodes d) i = Some s -> matched ref norm d i j ->
  ~ skipped ref s.
Proof.
  intros Hs (s' & t & r & sid & frag & [Hs' _] & (Hr & Hsid & Hne & Hne')
             & _) Hskip.
  rewrite Hs in Hs'. injection Hs' as <-.
  destruct Hskip as [H | [H | [H | H]]]; congruence.
Qed.

End Edges.

Section Runs.

Lemma reconstruct_all_frame (fs : list faults) (d : db) :
  nodes (reconstruct_all fs d) = nodes d /\
  indexes (reconstruct_all fs d) = indexes d /\
  exists added, rels (reconstruct_all fs d) = (rels d ++ added)%list.
Proof.
  unfold reconstruct_all. revert d.
  induction fs as [|f fs IH]; intros d; cbn [fold_left].
  - repeat split. exists []. now rewrite app_nil_r.
  - destruct (IH (reconstruct f d)) as (Hn & Hi & b & Hb).
    destruct (reconstruct_frame f d) as (Hn' & Hi' & a & Ha).
    split; [congruence|]. split; [congruence|].
    exists (a ++ b)%list. now rewrite Hb, Ha, app_assoc.
Qed.

Lemma clean_run_absorbs (f : faults) (d : db) :
  reconstruct no_faults (reconstruct f d) = reconstruct no_faults d.
Proof.
  destruct (reconstruct_cases f d) as [-> | [-> | ->]].
  - reflexivity.
  - rewrite !reconstruct_no_faults. unfold reply_pass.
    now rewrite pass_twice.
  - rewrite (reconstruct_no_faults d). apply reconstruct_settled.
Qed.

Lemma rows_of_lone (ref : node -> value) (norm : value -> value) (d : db) :
  (forall i j s t, is_content d i s -> is_content d j t -> i = j) ->
  rows ref norm d = [].
Proof.
  intros Hone. destruct (rows ref norm d) as [|[i j] l] eqn:E;
    [reflexivity|].
  assert (Hin : In (i, j) (rows ref norm d)) by (rewrite E; now left).
  apply rows_In in Hin.
  destruct (matched_joins REPLIES_TO Hin) as (Hne & s & t & _ & _ & Hs & Ht & _).
  simpl in *. elim Hne. eapply Hone; eassumption.
Qed.

Lemma with_driver_returns (f : faults) (banner : string) (body : M unit)
      (w : world) (b : bool) :
  fst (with_driver f banner body w) = Returns b ->
  driver_fault f = None /\ close_fault f = None.
Proof.
  unfold with_driver.
  destruct (driver_fault f); [discriminate|].
  destruct (body w) as [[u|e] w']; destruct (close_fault f);
    try discriminate; auto.
Qed.

Lemma failed_run_store (f : faults) (d : db) (m : string) :
  reconstruction_failure f d = Some m ->
  reconstruct f d = d \/ reconstruct f d = reply_pass d.
Proof.
  unfold reconstruction_failure, reply_query_failure, thread_query_failure,
    statement_failure, reconstruct, create_thread_relationships,
    with_driver, thread_relationships_body, bind, open_session,
    session_run, print, replies_statement, threads_statement, run_statement.
  destruct (driver_fault f); [now left|].
  destruct (session_fault f); [destruct (close_fault f); now left|].
  cbn [print_line store stdout start].
  destruct (run_fault f 0); [destruct (close_fault f); now left|].
  destruct (first_rejected (reject f) REPLIES_TO _);
    [destruct (close_fault f); now left|].
  cbn [print_line store stdout].
  destruct (run_fault f 1); [destruct (close_fault f); now right|].
  fold (pass REPLIES_TO parent_id processed_parent_id d).
  fold reply_pass.
  destruct (first_rejected (reject f) BELONGS_TO_THREAD _);
    [destruct (close_fault f); now right | discriminate].
Qed.

Lemma length_app (a b : string) :
  String.length (a ++ b) = String.length a + String.length b.
Proof. induction a as [|x a IH]; simpl; [|rewrite IH]; reflexivity. Qed.

End Runs.

(** X1.  A node whose [parent_id] is absent, empty or its own id (or
    that has no id) is the source of no row of the reply statement, so it
    is not counted, and no run, clean or failing, gives it an outgoing
    [REPLIES_TO] edge it did not have; the same holds for [link_id] and
    [BELONGS_TO_THREAD]. *)
Theorem skipped_reference_gets_no_edge (d : db) (i : nat) (s : node) :
  nth_error (nodes d) i = Some s ->
  (skipped parent_id s ->
   (forall j, ~ In (i, j) (rows parent_id processed_parent_id d)) /\
   (forall fs j, In (mkRel REPLIES_TO i j) (rels (reconstruct_all fs d)) ->
                 In (mkRel REPLIES_TO i j) (rels d))) /\
  (skipped link_id s ->
   (forall j, ~ In (i, j) (rows link_id processed_thread_id d)) /\
   (forall fs j,
       In (mkRel BELONGS_TO_THREAD i j) (rels (reconstruct_all fs d)) ->
       In (mkRel BELONGS_TO_THREAD i j) (rels d))).
Proof.
  intros Hs. split; intros Hskip; split.
  - intros j Hin. apply rows_In in Hin.
    exact (matched_not_skipped Hs Hin Hskip).
  - intros fs j Hin.
    apply reconstruct_all_In in Hin as [Hin | [[_ H] | [H _]]];
      [assumption | | discriminate].
    elim (matched_not_skipped Hs H Hskip).
  - intros j Hin. apply rows_In in Hin.
    exact (matched_not_skipped Hs Hin Hskip).
  - intros fs j Hin.
    apply reconstruct_all_In in Hin as [Hin | [[H _] | [_ H]]];
      [assumption | discriminate |].
    elim (matched_not_skipped Hs H Hskip).
Qed.

Lemma skipped_reference_gets_no_edge_witness :
  ((forall j, ~ In (0, j) (rows parent_id processed_parent_id
                                (ingested scenario))) /\
   (forall fs j,
       In (mkRel REPLIES_TO 0 j)
          (rels (reconstruct_all fs (ingested scenario))) ->
       In (mkRel REPLIES_TO 0 j) (rels (ingested scenario)))) /\
  ((forall j, ~ In (0, j) (rows link_id processed_thread_id
                                (ingested scenario))) /\
   (forall fs j,
       In (mkRel BELONGS_TO_THREAD 0 j)
          (rels (reconstruct_all fs (ingested scenario))) ->
       In (mkRel BELONGS_TO_THREAD 0 j) (rels (ingested scenario)))).
Proof.
  pose proof (@skipped_reference_gets_no_edge
                (ingested scenario) 0
                (content (Some "t3_100") None None) eq_refl) as [Hp Hl].
  split; [apply Hp | apply Hl]; now left.
Defined.

(** X2.  Whatever runs are made, clean or failing, the reconstruction
    leaves the nodes (with their [parent_id] and [link_id]) and the index
    catalogue as they were, and keeps every edge of the store in place:
    the edges after the runs are the edges before, followed by new ones. *)
Theorem reconstruction_only_appends_edges (fs : list faults) (d : db) :
  nodes (reconstruct_all fs d) = nodes d /\
  indexes (reconstruct_all fs d) = indexes d /\
  exists added, rels (reconstruct_all fs d) = (rels d ++ added)%list.
Proof. apply reconstruct_all_frame. Qed.

(** X3.  After a clean run the edges of the store are exactly the edges
    it had and the edges the two statements ask for: a [REPLIES_TO] edge
    for every pair matched through [parent_id] and a [BELONGS_TO_THREAD]
    edge for every pair matched through [link_id], and nothing else. *)
Theorem clean_run_links_exactly_the_matched_pairs (d : db) (r : rel) :
  In r (rels (reconstruct no_faults d)) <->
  In r (rels d) \/
  (rtype r = REPLIES_TO /\
   matched parent_id processed_parent_id d (src r) (dst r)) \/
  (rtype r = BELONGS_TO_THREAD /\
   matched link_id processed_thread_id d (src r) (dst r)).
Proof. apply clean_run_In. Qed.

(** X4.  Whatever runs are made, clean or failing, an edge of the store
    that was not there before joins two different nodes of the store, both
    labelled [RedditContent], both with an id, and the two ids differ: no
    edge dangles, none touches a node of another label, and two nodes that
    share an id are never linked. *)
Theorem new_edges_join_content_nodes (fs : list faults) (d : db) (r : rel) :
  In r (rels (reconstruct_all fs d)) ->
  In r (rels d) \/
  (joins_content d r /\
   src r < List.length (nodes d) /\ dst r < List.length (nodes d)).
Proof.
  intros Hin. apply reconstruct_all_In in Hin as [Hin | Hl]; [now left|].
  right. pose proof (linked_joins Hl) as Hj. split; [assumption|].
  destruct Hj as (_ & s & t & _ & _ & [Hs _] & [Ht _] & _).
  split; apply nth_error_Some; congruence.
Qed.

Lemma new_edges_join_content_nodes_witness :
  In (mkRel REPLIES_TO 2 0) (rels (ingested batch)) \/
  (joins_content (ingested batch) (mkRel REPLIES_TO 2 0) /\
   2 < List.length (nodes (ingested batch)) /\
   0 < List.length (nodes (ingested batch))).
Proof.
  apply (@new_edges_join_content_nodes [no_faults] (ingested batch)).
  vm_compute. tauto.
Defined.

(** X5.  A clean run after any runs, clean or failing, leaves the store
    a single clean run would have left: what a failed run did is never in
    the way, and running again from the start after a failure is enough. *)
Theorem clean_run_after_failures_recovers (fs : list faults) (d : db) :
  reconstruct no_faults (reconstruct_all fs d) = reconstruct no_faults d.
Proof.
  unfold reconstruct_all. revert d.
  induction fs as [|f fs IH]; intros d; cbn [fold_left]; [reflexivity|].
  rewrite IH. apply clean_run_absorbs.
Qed.

(** X6.  On a store with at most one content node (an empty store
    included) no run changes anything, and a clean run prints a count of
    0 for both passes and returns [True]. *)
Theorem lone_content_node_gets_no_edge (d : db) :
  (forall i j s t, is_content d i s -> is_content d j t -> i = j) ->
  (forall fs, reconstruct_all fs d = d) /\
  create_thread_relationships no_faults (start d)
  = (Returns true,
     mkWorld d
             [ "Creating REPLIES_TO relationships...";
               "Created 0 REPLIES_TO relationships";
               "Creating BELONGS_TO_THREAD relationships...";
               "Created 0 BELONGS_TO_THREAD relationships";
               "✓ Thread relationships creation completed!" ]).
Proof.
  intros Hone.
  pose proof (rows_of_lone parent_id processed_parent_id Hone) as Hr.
  pose proof (rows_of_lone link_id processed_thread_id Hone) as Ht.
  assert (Hrp : reply_pass d = d).
  { apply pass_fixed. rewrite Hr. intros p []. }
  assert (Htp : thread_pass d = d).
  { apply pass_fixed. rewrite Ht. intros p []. }
  split.
  - intros fs. unfold reconstruct_all.
    induction fs as [|f fs IH]; cbn [fold_left]; [reflexivity|].
    replace (reconstruct f d) with d; [assumption|].
    destruct (reconstruct_cases f d) as [-> | [-> | ->]];
      rewrite ?Hrp, ?Htp; reflexivity.
  - rewrite clean_execution; try reflexivity.
    + cbn [store start stdout app].
      unfold clean_lines, reply_count, thread_count.
      rewrite Hrp, Htp, Hr, Ht. reflexivity.
    + unfold reconstruction_failure, reply_query_failure,
        thread_query_failure, statement_failure.
      cbn [session_fault run_fault no_faults].
      now rewrite !first_rejected_no_faults.
Qed.

Lemma lone_content_node_gets_no_edge_witness :
  (forall fs, reconstruct_all fs lonely = lonely) /\
  create_thread_relationships no_faults (start lonely)
  = (Returns true,
     mkWorld lonely
             [ "Creating REPLIES_TO relationships...";
               "Created 0 REPLIES_TO relationships";
               "Creating BELONGS_TO_THREAD relationships...";
               "Created 0 BELONGS_TO_THREAD relationships";
               "✓ Thread relationships creation completed!" ]).
Proof.
  apply (@lone_content_node_gets_no_edge lonely).
  intros i j s t [Hs _] [Ht _].
  destruct i as [|[|i]], j as [|[|j]]; simpl in Hs, Ht;
    try discriminate; reflexivity.
Defined.

(** X7.  The id of a candidate is strictly longer than the fragment it
    was resolved for: a node whose id is the fragment itself, with nothing
    after it, is never a candidate. *)
Theorem candidate_id_is_longer_than_fragment
        (d : db) (source : node) (frag : string) (j : nat) (t : node) :
  In (j, t) (candidates d source (Some frag)) ->
  exists tid, id t = Some tid /\
              String.length frag < String.length tid /\ tid <> frag.
Proof.
  intros Hin.
  apply candidates_In in Hin as (sid & _ & _ & tid & Htid & [rest ->] & _).
  exists (frag ++ "_" ++ rest). split; [assumption|].
  assert (Hlen : String.length frag
                 < String.length (frag ++ "_" ++ rest)).
  { rewrite length_app. simpl. lia. }
  split; [assumption|].
  intros Heq. rewrite Heq in Hlen at 1. lia.
Qed.

Lemma candidate_id_is_longer_than_fragment_witness :
  exists tid, id (content (Some "abc_1") None None) = Some tid /\
              String.length "abc" < String.length tid /\ tid <> "abc".
Proof.
  apply (@candidate_id_is_longer_than_fragment
           (ingested boundary)
           (content (Some "zzz_1") (Some "t1_abc") None) "abc" 0).
  now left.
Defined.

(** X8.  The value the reconstruction returns tells what it did.  When
    it returns [True], no store call raised, the store is the one a clean
    run leaves, so every pair the statements ask for is linked, and the
    lines printed are those of a clean run.  When it returns [False], a
    store call inside [try] raised, and the store is either untouched or
    has the reply edges only: the thread statement has added nothing. *)
Theorem outcome_tells_what_was_done (f : faults) (d : db) :
  (fst (create_thread_relationships f (start d)) = Returns true ->
   reconstruction_failure f d = None /\
   reconstruct f d = reconstruct no_faults d /\
   (forall r, linked d r -> In r (rels (reconstruct f d))) /\
   stdout (snd (create_thread_relationships f (start d)))
   = [ "Creating REPLIES_TO relationships...";
       "Created " ++ str (reply_count d) ++ " REPLIES_TO relationships";
       "Creating BELONGS_TO_THREAD relationships...";
       "Created " ++ str (thread_count d)
         ++ " BELONGS_TO_THREAD relationships";
       "✓ Thread relationships creation completed!" ]) /\
  (fst (create_thread_relationships f (start d)) = Returns false ->
   (exists m, reconstruction_failure f d = Some m) /\
   (reconstruct f d = d \/ reconstruct f d = reply_pass d)).
Proof.
  split; intros Hout;
    destruct (with_driver_returns _ _ _ _ Hout) as [Hd Hc];
    destruct (reconstruction_failure f d) as [m|] eqn:Hf.
  - exfalso. revert Hout. unfold create_thread_relationships.
    rewrite with_driver_guarded by assumption.
    pose proof (thread_body_raises f (start d) Hf) as Hb.
    destruct (thread_relationships_body f (start d)) as [[u|e] w'];
      simpl in Hb; [discriminate | discriminate].
  - assert (Hrun : reconstruct f d = reconstruct no_faults d).
    { rewrite reconstruct_no_faults. unfold reconstruct.
      now rewrite clean_execution. }
    split; [reflexivity|]. split; [assumption|]. split.
    + intros r Hl. rewrite Hrun. apply clean_run_In. now right.
    + now rewrite clean_execution.
  - split; [now exists m|]. now apply failed_run_store with (m := m).
  - exfalso. revert Hout. now rewrite clean_execution.
Qed.

Lemma outcome_tells_what_was_done_witness :
  (reconstruction_failure no_faults (ingested batch) = None /\
   reconstruct no_faults (ingested batch)
   = reconstruct no_faults (ingested batch) /\
   (forall r, linked (ingested batch) r ->
              In r (rels (reconstruct no_faults (ingested batch)))) /\
   stdout (snd (create_thread_relationships no_faults
                  (start (ingested batch))))
   = [ "Creating REPLIES_TO relationships...";
       "Created " ++ str (reply_count (ingested batch))
         ++ " REPLIES_TO relationships";
       "Creating BELONGS_TO_THREAD relationships...";
       "Created " ++ str (thread_count (ingested batch))
         ++ " BELONGS_TO_THREAD relationships";
       "✓ Thread relationships creation completed!" ]) /\
  ((exists m, reconstruction_failure lost_on_second (ingested batch)
              = Some m) /\
   (reconstruct lost_on_second (ingested batch) = ingested batch \/
    reconstruct lost_on_second (ingested batch)
    = reply_pass (ingested batch))).
Proof.
  split.
  - apply (proj1 (outcome_tells_what_was_done no_faults (ingested batch))).
    reflexivity.
  - apply (proj2 (outcome_tells_what_was_done
                    lost_on_second (ingested batch))).
    reflexivity.
Defined.

(* ================================================================== *)
(** ** What the index script keeps, adds and leaves alone *)

Section Declarations.

Lemma same_schema_eq (a b : index) :
  same_schema a b = true <-> ix_schema a = ix_schema b.
Proof.
  unfold same_schema, ix_schema.
  rewrite andb_true_iff, !String.eqb_eq. split.
  - now intros [-> ->].
  - now intros [= -> ->].
Qed.

Lemma declare_frame (ix : index) (d : db) :
  let d' := create_vector_index_if_not_exists ix d in
  nodes d' = nodes d /\ rels d' = rels d /\
  (exists added, indexes d' = (indexes d ++ added)%list /\
                 incl added [ix]) /\
  (NoDup (map ix_name (indexes d)) -> NoDup (map ix_name (indexes d'))) /\
  (NoDup (map ix_schema (indexes d)) ->
   NoDup (map ix_schema (indexes d'))).
Proof.
  intros d'. subst d'.
  destruct (declare_cases ix d) as [[-> _] | [-> Hno]].
  - repeat split; auto. exists []. rewrite app_nil_r.
    split; [reflexivity | intros x []].
  - cbn [nodes rels indexes]. repeat split.
    + exists [ix]. split; [reflexivity | apply incl_refl].
    + intros Hnd. rewrite map_app. apply NoDup_app; auto.
      * constructor; [intros [] | constructor].
      * intros n Hin [<- | []].
        apply in_map_iff in Hin as (e & Hn & Hin).
        now destruct (Hno e Hin).
    + intros Hnd. rewrite map_app. apply NoDup_app; auto.
      * constructor; [intros [] | constructor].
      * intros n Hin [<- | []].
        apply in_map_iff in Hin as (e & Hn & Hin).
        destruct (Hno e Hin) as [_ Hs].
        apply same_schema_eq in Hn. congruence.
Qed.

Lemma declare_covers (ix : index) (d : db) :
  covered ix (create_vector_index_if_not_exists ix d).
Proof.
  destruct (declare_cases ix d) as [[-> (e & Hin & He)] | [-> _]].
  - exists e. split; [assumption|].
    destruct He as [He | He]; [now left | right].
    now apply same_schema_eq.
  - exists ix. split; [|now left].
    cbn [indexes]. apply in_or_app. right. now left.
Qed.

Lemma declare_keeps_covered (ix ix' : index) (d : db) :
  covered ix d -> covered ix (create_vector_index_if_not_exists ix' d).
Proof.
  intros (e & Hin & He). exists e. split; [|assumption].
  now apply declare_keeps.
Qed.

Lemma failed_indexing_store (f : faults) (d : db) (m : string) :
  indexes_failure f = Some m ->
  reindex f d = d \/
  reindex f d = create_vector_index_if_not_exists reddit_content_embeddings d.
Proof.
  unfold indexes_failure, reindex, create_vector_indexes, with_driver,
    vector_indexes_body, bind, open_session, session_run, print,
    declare_index.
  destruct (driver_fault f); [now left|].
  destruct (session_fault f); [destruct (close_fault f); now left|].
  cbn [print_line store stdout start].
  destruct (run_fault f 0); [destruct (close_fault f); now left|].
  cbn [print_line store stdout].
  destruct (run_fault f 1); [destruct (close_fault f); now right|].
  discriminate.
Qed.

End Declarations.

(** X9.  Whatever happens during a run of the index script, it leaves
    the nodes and the edges as they were and keeps every index of the
    catalogue in place: the catalogue after the run is the catalogue
    before, followed by some of the two declared indexes.  If the names
    of the catalogue were distinct they still are, and if no two indexes
    covered the same label and property none do after the run. *)
Theorem index_script_only_appends (f : faults) (d : db) :
  nodes (reindex f d) = nodes d /\
  rels (reindex f d) = rels d /\
  (exists added,
      indexes (reindex f d) = (indexes d ++ added)%list /\
      incl added [reddit_content_embeddings; topic_embeddings]) /\
  (NoDup (map ix_name (indexes d)) ->
   NoDup (map ix_name (indexes (reindex f d)))) /\
  (NoDup (map ix_schema (indexes d)) ->
   NoDup (map ix_schema (indexes (reindex f d)))).
Proof.
  destruct (declare_frame reddit_content_embeddings d)
    as (Hn1 & Hr1 & (a & Ha & Hia) & Hnm1 & Hsc1).
  destruct (declare_frame topic_embeddings
              (create_vector_index_if_not_exists
                 reddit_content_embeddings d))
    as (Hn2 & Hr2 & (b & Hb & Hib) & Hnm2 & Hsc2).
  destruct (reindex_cases f d) as [-> | [-> | ->]].
  - repeat split; auto. exists []. rewrite app_nil_r.
    split; [reflexivity | intros x []].
  - split; [assumption|]. split; [assumption|].
    split; [|split; assumption].
    exists a. split; [assumption|].
    intros x Hx. left. now destruct (Hia x Hx) as [<- | []].
  - split; [congruence|]. split; [congruence|].
    split; [|split; auto].
    exists (a ++ b)%list. split.
    + now rewrite Hb, Ha, app_assoc.
    + intros x Hx. apply in_app_or in Hx as [Hx | Hx].
      * left. now destruct (Hia x Hx) as [<- | []].
      * right. left. now destruct (Hib x Hx) as [<- | []].
Qed.

Lemma index_script_only_appends_witness :
  nodes (reindex lost_on_second stale) = nodes stale /\
  rels (reindex lost_on_second stale) = rels stale /\
  (exists added,
      indexes (reindex lost_on_second stale)
      = (indexes stale ++ added)%list /\
      incl added [reddit_content_embeddings; topic_embeddings]) /\
  NoDup (map ix_name (indexes (reindex lost_on_second stale))) /\
  NoDup (map ix_schema (indexes (reindex lost_on_second stale))).
Proof.
  pose proof (index_script_only_appends lost_on_second stale)
    as (Hn & Hr & Ha & Hnm & Hsc).
  refine (conj Hn (conj Hr (conj Ha (conj (Hnm _) (Hsc _)))));
    repeat constructor; intros [].
Defined.

(** X10.  A clean run of the index script after a run that failed at any
    point leaves the catalogue a single clean run would have left. *)
Theorem clean_indexing_after_failure_recovers (f : faults) (d : db) :
  reindex no_faults (reindex f d) = reindex no_faults d.
Proof.
  destruct (reindex_cases f d) as [-> | [-> | ->]].
  - reflexivity.
  - rewrite !reindex_no_faults. now rewrite declare_twice.
  - rewrite <- reindex_no_faults. apply reindex_settled.
Qed.

(** X11.  The value the index script returns tells what it did.  When it
    returns [True], no store call raised and each of the two declarations
    is covered: the catalogue has an index of its name, or one over its
    label and property.  When it returns [False], a store call inside
    [try] raised, and the catalogue is untouched or has gone through the
    first declaration only. *)
Theorem index_outcome_tells_what_was_done (f : faults) (d : db) :
  (fst (create_vector_indexes f (start d)) = Returns true ->
   indexes_failure f = None /\
   reindex f d = reindex no_faults d /\
   covered reddit_content_embeddings (reindex f d) /\
   covered topic_embeddings (reindex f d)) /\
  (fst (create_vector_indexes f (start d)) = Returns false ->
   (exists m, indexes_failure f = Some m) /\
   (reindex f d = d \/
    reindex f d
    = create_vector_index_if_not_exists reddit_content_embeddings d)).
Proof.
  split; intros Hout;
    destruct (with_driver_returns _ _ _ _ Hout) as [Hd Hc];
    destruct (indexes_failure f) as [m|] eqn:Hf.
  - exfalso. revert Hout. unfold create_vector_indexes.
    rewrite with_driver_guarded by assumption.
    pose proof (index_body_raises f (start d) Hf) as Hb.
    destruct (vector_indexes_body f (start d)) as [[u|e] w'];
      simpl in Hb; [discriminate | discriminate].
  - assert (Hrun : reindex f d = reindex no_faults d).
    { rewrite reindex_no_faults. unfold reindex.
      now rewrite clean_indexing. }
    split; [reflexivity|]. split; [assumption|].
    rewrite Hrun, reindex_no_faults. split.
    + apply declare_keeps_covered, declare_covers.
    + apply declare_covers.
  - split; [now exists m|]. now apply failed_indexing_store with (m := m).
  - exfalso. revert Hout. now rewrite clean_indexing.
Qed.

Lemma index_outcome_tells_what_was_done_witness :
  (indexes_failure no_faults = None /\
   reindex no_faults renamed = reindex no_faults renamed /\
   covered reddit_content_embeddings (reindex no_faults renamed) /\
   covered topic_embeddings (reindex no_faults renamed)) /\
  ((exists m, indexes_failure no_session = Some m) /\
   (reindex no_session renamed = renamed \/
    reindex no_session renamed
    = create_vector_index_if_not_exists reddit_content_embeddings renamed)).
Proof.
  split.
  - apply (proj1 (index_outcome_tells_what_was_done no_faults renamed)).
    reflexivity.
  - apply (proj2 (index_outcome_tells_what_was_done no_session renamed)).
    reflexivity.
Defined.

(** X12.  When the catalogue has an index over the label and property of
    the content declaration, and none called [reddit_content_embeddings],
    a clean run of the index script returns [True] and still leaves the
    catalogue without an index of that name. *)
Theorem covered_schema_leaves_name_undeclared (d : db) :
  (exists e, In e (indexes d) /\
             ix_schema e = ix_schema reddit_content_embeddings) ->
  (forall e, In e (indexes d) -> ix_name e <> "reddit_content_embeddings") ->
  fst (create_vector_indexes no_faults (start d)) = Returns true /\
  named "reddit_content_embeddings" (reindex no_faults d) = [].
Proof.
  intros (e & Hin & Hs) Hnames. split.
  - now rewrite clean_indexing.
  - rewrite reindex_no_faults. unfold named.
    destruct (declare_cases reddit_content_embeddings d)
      as [[-> _] | [_ Hno]].
    + destruct (declare_cases topic_embeddings d) as [[-> _] | [-> _]].
      * now apply named_absent.
      * cbn [indexes]. rewrite filter_app, named_absent by assumption.
        reflexivity.
    + destruct (Hno e Hin) as [_ Hf].
      apply same_schema_eq in Hs. congruence.
Qed.

Lemma covered_schema_leaves_name_undeclared_witness :
  fst (create_vector_indexes no_faults (start renamed)) = Returns true /\
  named "reddit_content_embeddings" (reindex no_faults renamed) = [].
Proof.
  apply (@covered_schema_leaves_name_undeclared renamed).
  - eexists. split; [now left | reflexivity].
  - intros e [<- | []]. discriminate.
Defined.

(* ================================================================== *)
(** ** The command line *)

Section Banners.


End Banners.





(* ================================================================== *)
(** ** Counts and edges *)

Section Counting.


Lemma filter_shorter (A : Type) (g : A -> bool) (l : list A) (x : A) :
  In x l -> g x = false -> List.length (filter g l) < List.length l.
Proof.
  induction l as [|y l IH]; simpl; intros Hin Hx; [contradiction|].
  destruct Hin as [-> | Hin].
  - rewrite Hx. pose proof (filter_length_le g l). lia.
  - specialize (IH Hin Hx). destruct (g y); simpl; lia.
Qed.

Lemma target_filter_self (p : value) (s : node) :
  target_filter p s s = false.
Proof.
  unfold target_filter. rewrite holds_and3.
  destruct (holds (neq (id s) (id s))) eqn:E;
    [|apply andb_false_r].
  apply holds_neq in E as (x & y & Hx & Hy & Hne). congruence.
Qed.

Lemma candidates_bound (d : db) (s : nat * node) (p : value) :
  In s (match_label "RedditContent" d) ->
  List.length (candidates d (snd s) p) <= content_count d - 1.
Proof.
  intros Hin. unfold candidates, content_count.
  pose proof (@filter_shorter _
                (fun t => target_filter p (snd s) (snd t))
                (match_label "RedditContent" d) s Hin
                (target_filter_self p (snd s))).
  lia.
Qed.

Lemma flat_map_bound (A B : Type) (g : A -> list B) (l : list A) (n : nat) :
  (forall x, In x l -> List.length (g x) <= n) ->
  List.length (flat_map g l) <= List.length l * n.
Proof.
  induction l as [|x l IH]; simpl; intros H; [lia|].
  rewrite List.length_app.
  specialize (IH (fun y Hy => H y (or_intror Hy))).
  specialize (H x (or_introl eq_refl)). lia.
Qed.

Lemma rows_bound (ref : node -> value) (norm : value -> value) (d : db) :
  List.length (rows ref norm d) <= content_count d * (content_count d - 1).
Proof.
  unfold rows.
  etransitivity.
  - apply flat_map_bound with (n := content_count d - 1).
    intros s Hs. rewrite length_map.
    apply candidates_bound. now apply filter_In in Hs.
  - apply Nat.mul_le_mono_r. apply filter_length_le.
Qed.

End Counting.


(** X16.  With [c] nodes labelled [RedditContent] in the store, each
    pass has at most [c * (c - 1)] rows: a node is never its own
    candidate.  On a store where no edge has a parallel copy the count a
    statement returns is the number of its rows, so it is at most
    [c * (c - 1)] too. *)
Theorem count_is_bounded_by_content_pairs (d : db) :
  (List.length (rows parent_id processed_parent_id d)
   <= content_count d * (content_count d - 1) /\
   List.length (rows link_id processed_thread_id d)
   <= content_count d * (content_count d - 1)) /\
  (simple d ->
   forall (reject : rel -> option string) (d' : db) (n : nat),
     (replies_statement reject d = Ok (d', n) ->
      n <= content_count d * (content_count d - 1)) /\
     (threads_statement reject d = Ok (d', n) ->
      n <= content_count d * (content_count d - 1))).
Proof.
  split; [split; apply rows_bound|].
  intros Hs reject d' n.
  unfold replies_statement, threads_statement, run_statement.
  split.
  - destruct (first_rejected reject REPLIES_TO _); [discriminate|].
    intros [= _ <-].
    rewrite yield_rows_reported by apply rows_NoDup.
    rewrite reported_single by (intros p _; apply Hs).
    apply rows_bound.
  - destruct (first_rejected reject BELONGS_TO_THREAD _); [discriminate|].
    intros [= _ <-].
    rewrite yield_rows_reported by apply rows_NoDup.
    rewrite reported_single by (intros p _; apply Hs).
    apply rows_bound.
Qed.

Lemma count_is_bounded_by_content_pairs_witness :
  4 <= content_count (ingested batch) * (content_count (ingested batch) - 1).
Proof.
  assert (Hs : simple (ingested batch)) by (intros r; simpl; lia).
  apply (proj1 (proj2 (count_is_bounded_by_content_pairs (ingested batch))
                      Hs (fun _ => None) (reply_pass (ingested batch)) 4)).
  reflexivity.
Defined.
